(** * The notification worker of five-bells-ledger

    A shallow embedding of [src/lib/notificationWorker.js]: the
    deduplicating creation of notification records ([findOrCreate]), the
    fan-out of a transfer update ([queueNotifications]) and one delivery
    attempt ([processNotificationWithInstances]), with the properties of
    the dispatch engine proved over it.

    The worker is effectful code: it reads and writes the notification
    table, keeps a signature cache, calls the scheduler, the signer and
    the HTTP transport, and emits local events.  The embedding threads a
    [World] through a small state-and-exception monad; every effect that
    a property speaks about is also appended to a trace. *)

From stdpp Require Import gmap strings list fin_maps pretty.

Open Scope string_scope.

(** ** JavaScript values used by the worker *)

(** A plain JS object with string-valued properties
    (a row of the notification table, [options.defaults]). *)
Abbreviation Obj := (gmap string string).

(** Truthiness of a string: only the empty string is falsy. *)
Definition js_truthy (s : string) : bool :=
  match s with
  | EmptyString => false
  | String _ _ => true
  end.

(** Truthiness of a property read [o.k]: [undefined] is falsy. *)
Definition js_truthy_prop (v : option string) : bool :=
  match v with
  | Some s => js_truthy s
  | None => false
  end.

(** A possibly-undefined string used as a string (in a concatenation or
    as a computed property key). *)
Definition js_str (v : option string) : string :=
  match v with
  | Some s => s
  | None => "undefined"
  end.

(** [_.assign({}, a, b)]: the properties of [b] win over those of [a]. *)
Definition js_assign (a b : Obj) : Obj := b ∪ a.

(** ** Data model *)

(** [transferStates] of the transfer state dictionary. *)
Inductive TransferState :=
  | TRANSFER_STATE_PROPOSED
  | TRANSFER_STATE_PREPARED
  | TRANSFER_STATE_EXECUTED
  | TRANSFER_STATE_REJECTED.

#[global] Instance TransferState_eq_dec : EqDecision TransferState.
Proof. solve_decision. Defined.

(** One entry of [transfer.debits] or [transfer.credits]. *)
Record Entry := { account : string; amount : string }.

Record Transfer := {
  t_id : string;
  t_state : TransferState;
  debits : list Entry;
  credits : list Entry
}.

Record Fulfillment := { condition_fulfillment : string }.

Record Subscription := {
  s_id : string;
  s_owner : string;
  s_target : string
}.

(** External (wire) representations produced by the converters. *)
Definition ExtTransfer := string.
Definition ExtFulfillment := string.

(** A notification body: the object literal built by the worker.  The
    generic body emitted to local listeners has only [resource] and
    possibly [related_resources]; the body sent to a subscriber also has
    [id], [subscription], [event] and, once signed, [signature].

    [b_signature] is the [signature] property when it is a string.  The
    one other value the worker can put there is a built-in member that the
    cache object inherits (see [cache_read]); [b_signature_member] then
    holds the member's name and [b_signature] is empty. *)
Record Body := {
  b_id : option string;
  b_subscription : option string;
  b_event : option string;
  b_resource : ExtTransfer;
  b_related_resources : option (gmap string ExtFulfillment);
  b_signature : option string;
  b_signature_member : option string
}.

(** [_.extend(body, { signature: sig })]. *)
Definition with_signature (body : Body) (sig : string) : Body :=
  {| b_id := b_id body;
     b_subscription := b_subscription body;
     b_event := b_event body;
     b_resource := b_resource body;
     b_related_resources := b_related_resources body;
     b_signature := Some sig;
     b_signature_member := None |}.

(** [_.extend(body, { signature: member })], for the built-in member of
    that name. *)
Definition with_signature_member (body : Body) (name : string) : Body :=
  {| b_id := b_id body;
     b_subscription := b_subscription body;
     b_event := b_event body;
     b_resource := b_resource body;
     b_related_resources := b_related_resources body;
     b_signature := None;
     b_signature_member := Some name |}.

(** [body.related_resources = rr]. *)
Definition with_related_resources (body : Body)
    (rr : gmap string ExtFulfillment) : Body :=
  {| b_id := b_id body;
     b_subscription := b_subscription body;
     b_event := b_event body;
     b_resource := b_resource body;
     b_related_resources := Some rr;
     b_signature := b_signature body;
     b_signature_member := b_signature_member body |}.

(** The own properties of [Object.prototype], which every plain object
    [{}] inherits: functions, and [__proto__], all truthy. *)
Definition object_prototype_members : list string :=
  [ "constructor"; "__defineGetter__"; "__defineSetter__";
    "hasOwnProperty"; "__lookupGetter__"; "__lookupSetter__";
    "isPrototypeOf"; "propertyIsEnumerable"; "toString"; "valueOf";
    "__proto__"; "toLocaleString" ].

Definition is_object_prototype_member (key : string) : bool :=
  bool_decide (key ∈ object_prototype_members).

(** What reading [cache[key]] of a plain object finds. *)
Inductive CacheSlot :=
  | SlotOwn (sig : string)      (* a property of the object itself *)
  | SlotInherited               (* a member of Object.prototype *)
  | SlotUndefined.

(** [cache[key]], for a plain object whose own properties are [own]: an
    own property comes first, then the prototype. *)
Definition cache_read (own : gmap string string) (key : string)
    : CacheSlot :=
  match own !! key with
  | Some sig => SlotOwn sig
  | None =>
      if is_object_prototype_member key then SlotInherited
      else SlotUndefined
  end.

(** The [options] argument of the data-access functions. *)
Record Options := {
  transaction : option nat;
  defaults : option Obj
}.

(** [{ transaction }] *)
Definition in_transaction (tx : option nat) : Options :=
  {| transaction := tx; defaults := None |}.

(** What a call to the transport comes back with: a response, or an
    exception (network error, timeout). *)
Inductive SendResult :=
  | Responded (statusCode : Z) (body : string)
  | SendFailed (err : string).

Inductive LogLevel := LDebug | LWarn.

(** The observable effects, in the order they happen. *)
Inductive Event :=
  | EvLog (level : LogLevel) (text : string)
  | EvEmit (name : string) (body : Body)
  | EvSign (body : Body)
  | EvSend (target : string) (payload : Body)
  | EvRetry (notification : Obj)
  | EvScheduleProcessing
  | EvInsert (row : Obj)
  | EvDelete (id : string).

(** How a generator finishes: it returns a value or throws.  The thrown
    value is kept as the string it converts to ([String(err)]). *)
Inductive outcome (A : Type) :=
  | Return (a : A)
  | Throw (err : string).
Arguments Return {A} a.
Arguments Throw {A} err.

(** ** External collaborators

    The scheduler, the signer, the transport, the converters, the URI
    factory, the id generator and the read-only lookups live outside the
    worker.  They are taken as an interface; the scheduler keeps a state
    of its own (its retry queue), and the transport and the id generator
    answer differently from call to call, which the [nat] argument (the
    number of such calls made so far) stands for.  [listeners] is what
    the listeners registered on the worker for an event do when it is
    emitted: they return, or one of them throws.  [error_stack] is the
    [stack] property of a thrown value. *)
Record Externals := {
  Sched : Type;
  isEnabled : Sched -> bool;
  retryNotification : Sched -> Obj -> outcome unit * Sched;
  scheduleProcessing : Sched -> outcome unit * Sched;
  uri_make : string -> string -> string;
  convertToExternalTransfer : Transfer -> ExtTransfer;
  convertToExternalFulfillment : Fulfillment -> ExtFulfillment;
  sign : Body -> string -> string -> Body;
  privateKey : string;
  uuid4 : nat -> string;
  sendNotification : nat -> string -> Body -> SendResult;
  getTransfer : option string -> outcome Transfer;
  getSubscription : option string -> outcome Subscription;
  getFulfillment : string -> Options -> outcome (option Fulfillment);
  getAffectedSubscriptions :
    list string -> Options -> outcome (option (list Subscription));
  listeners : string -> Body -> outcome unit;
  error_stack : string -> string
}.

Section Worker.

Variable E : Externals.

(** ** The world the worker runs in *)
Record World := {
  notifications : list Obj;          (* the notification table *)
  signatureCache : gmap string string;
  scheduler : Sched E;
  clock : nat;                       (* calls to uuid4 and the transport *)
  trace : list Event
}.

Definition set_notifications (w : World) (rows : list Obj) : World :=
  {| notifications := rows; signatureCache := signatureCache w;
     scheduler := scheduler w; clock := clock w; trace := trace w |}.

Definition set_signatureCache (w : World) (c : gmap string string) : World :=
  {| notifications := notifications w; signatureCache := c;
     scheduler := scheduler w; clock := clock w; trace := trace w |}.

Definition set_scheduler (w : World) (s : Sched E) : World :=
  {| notifications := notifications w; signatureCache := signatureCache w;
     scheduler := s; clock := clock w; trace := trace w |}.

Definition tick (w : World) : World :=
  {| notifications := notifications w; signatureCache := signatureCache w;
     scheduler := scheduler w; clock := S (clock w); trace := trace w |}.

Definition record_event (w : World) (e : Event) : World :=
  {| notifications := notifications w; signatureCache := signatureCache w;
     scheduler := scheduler w; clock := clock w; trace := trace w ++ [e] |}.

(** ** The monad of generators: state plus exceptions.  Effects made
    before an exception is thrown stay. *)
Definition M (A : Type) : Type := World -> outcome A * World.

Definition ret {A} (a : A) : M A := fun w => (Return a, w).

Definition throw {A} (err : string) : M A := fun w => (Throw err, w).

Definition bind {A B} (m : M A) (k : A -> M B) : M B :=
  fun w =>
    match m w with
    | (Return a, w') => k a w'
    | (Throw err, w') => (Throw err, w')
    end.

(** [try { m } catch (err) { h(err) }] and [promise.catch(h)]. *)
Definition try_catch {A} (m : M A) (h : string -> M A) : M A :=
  fun w =>
    match m w with
    | (Return a, w') => (Return a, w')
    | (Throw err, w') => h err w'
    end.

Definition emit_event (e : Event) : M unit :=
  fun w => (Return tt, record_event w e).

Definition lift_outcome {A} (o : outcome A) : M A := fun w => (o, w).

Notation "x <- m ;; k" := (bind m (fun x => k))
  (at level 100, m at next level, right associativity,
   format "'[v' x  <-  m  ;;  '/' k ']'").

(** [uuid4()] *)
Definition uuid4_call : M string :=
  fun w => (Return (uuid4 E (clock w)), tick w).

(** ** The notification store *)

(** Does the row carry this id?  An undefined id matches no row. *)
Definition has_id (id : option string) (row : Obj) : bool :=
  match id with
  | Some i => bool_decide (row !! "id" = Some i)
  | None => false
  end.

(** Is the row the notification of this (subscription, transfer) pair? *)
Definition matches_pair (subscriptionID transferID : string) (row : Obj)
    : bool :=
  bool_decide (row !! "subscription_id" = Some subscriptionID)
  && bool_decide (row !! "transfer_id" = Some transferID).

(** Modelled from the spec: the Notification Store (models/db/notifications)
    is not part of the sources at hand.  The spec describes it as a durable
    table of notification records exposing get/insert/find/delete, whose
    records have a unique [id]; [getMatchingNotification] finds the record
    of a (subscription, transfer) pair. *)
Definition getMatchingNotification (subscriptionID transferID : string)
    (options : Options) : M (option Obj) :=
  fun w => (Return (find (matches_pair subscriptionID transferID)
                         (notifications w)), w).

(** Modelled from the spec: the store's get, by notification id. *)
Definition getNotification (id : option string) (options : Options)
    : M (option Obj) :=
  fun w => (Return (find (has_id id) (notifications w)), w).

(** Modelled from the spec: the store's insert.  Ids are unique: a row
    whose id is already taken is refused with an exception. *)
Definition insertNotification (values : Obj) (options : Options) : M unit :=
  fun w =>
    if existsb (has_id (values !! "id")) (notifications w)
    then (Throw "notification id already exists", w)
    else (Return tt,
          record_event (set_notifications w (notifications w ++ [values]))
                       (EvInsert values)).

(** Modelled from the spec: the store's delete, by notification id. *)
Definition deleteNotification (id : option string) : M unit :=
  fun w =>
    (Return tt,
     record_event
       (set_notifications w
          (List.filter (fun row => negb (has_id id row)) (notifications w)))
       (EvDelete (js_str id))).

(** ** findOrCreate (lines 29-44) *)
Definition findOrCreate (subscriptionID transferID : string)
    (options : Options) : M (option Obj) :=
  result <- getMatchingNotification subscriptionID transferID options ;;
  match result with
  | Some r => ret (Some r)
  | None =>
      let values :=
        js_assign (default ∅ (defaults options))
          (<["subscription_id" := subscriptionID]>
             {["transfer_id" := transferID]}) in
      values <- (if js_truthy_prop (values !! "id")
                 then ret values
                 else id <- uuid4_call ;; ret (<["id" := id]> values)) ;;
      _ <- insertNotification values options ;;
      getNotification (values !! "id") options
  end.

(** ** Logging, events, scheduler and transport as effects *)

(** [this.log.debug(...)], [self.log.warn(...)].  A log line is recorded
    with its level and its text; a status code or an object interpolated
    into the text is left out. *)
Definition log (level : LogLevel) (text : string) : M unit :=
  emit_event (EvLog level text).

(** [self.emit(name, body)]: the listeners of the event run at once, and
    an exception of theirs comes out of [emit]. *)
Definition emit (name : string) (body : Body) : M unit :=
  fun w => (listeners E name body, record_event w (EvEmit name body)).

(** [this.scheduler.isEnabled()] *)
Definition scheduler_isEnabled : M bool :=
  fun w => (Return (isEnabled E (scheduler w)), w).

(** [yield this.scheduler.retryNotification(notification)] *)
Definition scheduler_retryNotification (notification : Obj) : M unit :=
  fun w =>
    let r := retryNotification E (scheduler w) notification in
    (fst r, set_scheduler (record_event w (EvRetry notification)) (snd r)).

(** [yield self.scheduler.scheduleProcessing()] *)
Definition scheduler_scheduleProcessing : M unit :=
  fun w =>
    let r := scheduleProcessing E (scheduler w) in
    (fst r, set_scheduler (record_event w EvScheduleProcessing) (snd r)).

(** [yield utils.sendNotification(target, payload, config)]: resolves to
    the response, or throws. *)
Definition utils_sendNotification (target : string) (payload : Body)
    : M (Z * string) :=
  fun w =>
    let w' := tick (record_event w (EvSend target payload)) in
    match sendNotification E (clock w) target payload with
    | Responded statusCode body => (Return (statusCode, body), w')
    | SendFailed err => (Throw err, w')
    end.

(** ** One delivery attempt (lines 140-193) *)

(** Lines 142-161: the body addressed to one subscriber. *)
Definition build_notification_body (notification : Obj) (transfer : Transfer)
    (subscription : Subscription) (fulfillment : option Fulfillment) : Body :=
  let subscriptionURI := uri_make E "subscription" (s_id subscription) in
  let notificationBody :=
    {| b_id := Some (subscriptionURI ++ "/notifications/"
                       ++ js_str (notification !! "id"));
       b_subscription := Some subscriptionURI;
       b_event := Some "transfer.update";
       b_resource := convertToExternalTransfer E transfer;
       b_related_resources := None;
       b_signature := None;
       b_signature_member := None |} in
  match fulfillment with
  | Some f =>
      if decide (t_state transfer = TRANSFER_STATE_EXECUTED) then
        with_related_resources notificationBody
          {[ "execution_condition_fulfillment" :=
               convertToExternalFulfillment E f ]}
      else if decide (t_state transfer = TRANSFER_STATE_REJECTED) then
        with_related_resources notificationBody
          {[ "cancellation_condition_fulfillment" :=
               convertToExternalFulfillment E f ]}
      else notificationBody
  | None => notificationBody
  end.

(** Lines 167-169: sign the body and remember the signature.  Storing an
    undefined signature leaves the slot undefined. *)
Definition sign_and_cache (key : string) (notificationBody : Body) : M Body :=
  fun w =>
    let signedNotification := sign E notificationBody "CC" (privateKey E) in
    let cache :=
      match b_signature signedNotification with
      | Some sig => <[key := sig]> (signatureCache w)
      | None => delete key (signatureCache w)
      end in
    (Return signedNotification,
     set_signatureCache (record_event w (EvSign notificationBody)) cache).

(** Lines 162-170: attach what [this.signatureCache[notification.id]]
    reads when that is truthy, sign otherwise.  The cache is a plain
    object, so the read also finds the members it inherits. *)
Definition sign_notification (notification : Obj) (notificationBody : Body)
    : M Body :=
  fun w =>
    let key := js_str (notification !! "id") in
    match cache_read (signatureCache w) key with
    | SlotOwn sig =>
        if js_truthy sig
        then (Return (with_signature notificationBody sig), w)
        else sign_and_cache key notificationBody w
    | SlotInherited =>
        (Return (with_signature_member notificationBody key), w)
    | SlotUndefined => sign_and_cache key notificationBody w
    end.

(** Lines 171-185: send; [retry] stays true unless the status is below
    400.  An exception of the transport is caught here. *)
Definition send_and_decide (subscription : Subscription)
    (signedNotification : Body) : M bool :=
  try_catch
    (result <- utils_sendNotification (s_target subscription)
                 signedNotification ;;
     if (fst result <? 400)%Z then ret false
     else
       _ <- log LDebug "remote error for notification" ;;
       _ <- log LDebug "signedNotification" ;;
       ret true)
    (fun err =>
       _ <- log LDebug ("notification send failed " ++ err) ;;
       ret true).

(** [delete this.signatureCache[notification.id]] *)
Definition forget_signature (notification : Obj) : M unit :=
  fun w =>
    (Return tt,
     set_signatureCache w
       (delete (js_str (notification !! "id")) (signatureCache w))).

Definition processNotificationWithInstances (notification : Obj)
    (transfer : Transfer) (subscription : Subscription)
    (fulfillment : option Fulfillment) : M unit :=
  _ <- log LDebug ("sending notification to " ++ s_target subscription) ;;
  let notificationBody :=
    build_notification_body notification transfer subscription fulfillment in
  signedNotification <- sign_notification notification notificationBody ;;
  retry <- send_and_decide subscription signedNotification ;;
  if retry : bool then scheduler_retryNotification notification
  else
    _ <- forget_signature notification ;;
    deleteNotification (notification !! "id").

(** ** Redelivery driven by the scheduler (lines 133-138) *)
Definition processNotification (notification : Obj) : M unit :=
  transfer <- lift_outcome (getTransfer E (notification !! "transfer_id")) ;;
  subscription <-
    lift_outcome (getSubscription E (notification !! "subscription_id")) ;;
  fulfillment <-
    lift_outcome (getFulfillment E (t_id transfer)
                    {| transaction := None; defaults := None |}) ;;
  processNotificationWithInstances notification transfer subscription
    fulfillment.

(** ** Fan-out of a transfer update (lines 65-131) *)

(** Modelled from the spec: [isTransferFinalized] (lib/transferUtils) is not
    part of the sources at hand.  The spec's glossary: a finalized transfer
    is one in a terminal state, executed or rejected. *)
Definition isTransferFinalized (transfer : Transfer) : bool :=
  bool_decide (t_state transfer = TRANSFER_STATE_EXECUTED)
  || bool_decide (t_state transfer = TRANSFER_STATE_REJECTED).

(** Lines 66-68: the accounts of all debits and credits, then ['*']. *)
Definition affected_accounts (transfer : Transfer) : list string :=
  map account (debits transfer ++ credits transfer) ++ ["*"].

(** Lines 71-73: the body for local listeners, before any fulfillment. *)
Definition generic_body (transfer : Transfer) : Body :=
  {| b_id := None;
     b_subscription := None;
     b_event := None;
     b_resource := convertToExternalTransfer E transfer;
     b_related_resources := None;
     b_signature := None;
     b_signature_member := None |}.

(** Lines 80-92: fold a fetched fulfillment into the generic body. *)
Definition attach_fulfillment (transfer : Transfer)
    (fulfillment : option Fulfillment) (notificationBody : Body) : Body :=
  match fulfillment with
  | Some f =>
      if decide (t_state transfer = TRANSFER_STATE_EXECUTED) then
        with_related_resources notificationBody
          {[ "execution_condition_fulfillment" :=
               convertToExternalFulfillment E f ]}
      else if decide (t_state transfer = TRANSFER_STATE_REJECTED) then
        with_related_resources notificationBody
          {[ "cancellation_condition_fulfillment" :=
               convertToExternalFulfillment E f ]}
      else notificationBody
  | None => notificationBody
  end.

(** Lines 76-93: the fulfillment is looked up only for a finalized
    transfer; otherwise the variable stays undefined. *)
Definition fetch_fulfillment (transfer : Transfer) (tx : option nat)
    : M (option Fulfillment) :=
  if isTransferFinalized transfer
  then lift_outcome (getFulfillment E (t_id transfer) (in_transaction tx))
  else ret None.

(** Lines 95-96 *)
Definition affected_account_uris (affectedAccounts : list string)
    : list string :=
  map (fun account =>
         if decide (account = "*") then account
         else uri_make E "account" account)
      affectedAccounts.

(** [yield [g1, g2, ...]]: co starts every element and does not cancel the
    others when one throws; the array resolves to all results, in array
    order, or rejects with an error.  co lets the elements take turns at
    their yields; here one schedule is taken, that in which each element
    runs to its end before the next one starts, in array order, and the
    first error in that order is the one reported.  What is proved of a
    fan-out below is stated on the events and the records of the whole
    array, not on how the elements' steps alternate. *)
Fixpoint parallel {A} (ms : list (M A)) : M (list A) :=
  match ms with
  | [] => ret []
  | m :: rest =>
      fun w =>
        match m w with
        | (Return a, w1) =>
            match parallel rest w1 with
            | (Return l, w2) => (Return (a :: l), w2)
            | (Throw err, w2) => (Throw err, w2)
            end
        | (Throw err, w1) => (Throw err, snd (parallel rest w1))
        end
  end.

(** [for (let x of xs) { f(x) }] *)
Fixpoint for_each {A} (xs : list A) (f : A -> M unit) : M unit :=
  match xs with
  | [] => ret tt
  | x :: rest => _ <- f x ;; for_each rest f
  end.

(** Lines 123-125: the immediate attempt for the notification at index
    [i], with the subscription at the same index.  Reading [.id] of an
    undefined notification, or [.target] of an undefined subscription,
    throws. *)
Definition immediate_attempt (transfer : Transfer)
    (subscriptions : list Subscription) (fulfillment : option Fulfillment)
    (i : nat) (notification : option Obj) : M unit :=
  match subscriptions !! i with
  | Some subscription =>
      match notification with
      | Some n =>
          processNotificationWithInstances n transfer subscription fulfillment
      | None =>
          _ <- log LDebug
                 ("sending notification to " ++ s_target subscription) ;;
          throw "TypeError: Cannot read property 'id' of undefined"
      end
  | None => throw "TypeError: Cannot read property 'target' of undefined"
  end.

Definition immediate_attempts (notifications : list (option Obj))
    (transfer : Transfer) (subscriptions : list Subscription)
    (fulfillment : option Fulfillment) : list (M unit) :=
  imap (immediate_attempt transfer subscriptions fulfillment) notifications.

(** *** Generator bodies and their yields

    The body of a generator function runs without interruption up to a
    [yield], where it is suspended until the yielded operation is done.
    [Sync m k] is code that runs on without suspension; [Await m k] is a
    [yield] of the operation [m]; both go on with [k] applied to the
    result, and an exception of [m] ends the generator. *)
Inductive Gen (A : Type) : Type :=
  | Done (a : A)
  | Sync {X : Type} (m : M X) (k : X -> Gen A)
  | Await {X : Type} (m : M X) (k : X -> Gen A).
Arguments Done {A} a.
Arguments Sync {A X} m k.
Arguments Await {A X} m k.

(** The generator run to its end, nothing else running in between. *)
Fixpoint run_gen {A} (g : Gen A) : M A :=
  match g with
  | Done a => ret a
  | Sync m k => x <- m ;; run_gen (k x)
  | Await m k => x <- m ;; run_gen (k x)
  end.

(** Where a started generator stands once it gives control back: it has
    finished (returned or thrown), or it is suspended at a [yield]. *)
Inductive Promise (A : Type) : Type :=
  | Settled (o : outcome A)
  | Suspended (rest : Gen A).
Arguments Settled {A} o.
Arguments Suspended {A} rest.

(** [co(g)]: the generator runs at once, up to its first [yield]. *)
Fixpoint start {A} (g : Gen A) : World -> Promise A * World :=
  match g with
  | Done a => fun w => (Settled (Return a), w)
  | Sync m k =>
      fun w =>
        match m w with
        | (Return x, w') => start (k x) w'
        | (Throw err, w') => (Settled (Throw err), w')
        end
  | Await m k => fun w => (Suspended (Await m k), w)
  end.

(** What is left of a started generator, run to its end. *)
Definition settle {A} (p : Promise A) : M A :=
  match p with
  | Settled o => lift_outcome o
  | Suspended rest => run_gen rest
  end.

(** [co(g).catch(handler)].  The caller goes on as soon as the generator
    has run up to its first [yield]; the rest of the generator, and the
    handler if it throws, run later.  Here they run right away, before
    anything else does. *)
Definition co_catch (g : Gen unit) (handler : string -> M unit) : M unit :=
  fun w =>
    let p := start g w in
    try_catch (settle (fst p)) handler (snd p).

(** Lines 112-127: the body of the detached [co] block, with its two
    yields (lines 123 and 127). *)
Definition dispatch_block (affectedAccounts : list string)
    (notificationBody : Body) (notifications : list (option Obj))
    (transfer : Transfer) (subscriptions : list Subscription)
    (fulfillment : option Fulfillment) : Gen unit :=
  Sync
    (_ <- log LDebug
            ("emitting transfer-{" ++ String.concat "," affectedAccounts
               ++ "}") ;;
     _ <- for_each affectedAccounts
            (fun account => emit ("transfer-" ++ account) notificationBody) ;;
     scheduler_isEnabled)
    (fun enabled =>
       if negb enabled then Done tt
       else
         Await (parallel (immediate_attempts notifications transfer
                            subscriptions fulfillment))
           (fun _ => Await scheduler_scheduleProcessing (fun _ => Done tt))).

(** The block run to its end. *)
Definition dispatch (affectedAccounts : list string) (notificationBody : Body)
    (notifications : list (option Obj)) (transfer : Transfer)
    (subscriptions : list Subscription) (fulfillment : option Fulfillment)
    : M unit :=
  run_gen (dispatch_block affectedAccounts notificationBody notifications
             transfer subscriptions fulfillment).

(** Lines 112-130: [co(...).catch(...)]; nothing escapes the handler,
    which logs the error's stack. *)
Definition dispatch_detached (affectedAccounts : list string)
    (notificationBody : Body) (notifications : list (option Obj))
    (transfer : Transfer) (subscriptions : list Subscription)
    (fulfillment : option Fulfillment) : M unit :=
  co_catch
    (dispatch_block affectedAccounts notificationBody notifications transfer
       subscriptions fulfillment)
    (fun err =>
       log LWarn ("immediate notification send failed " ++ error_stack E err)).

Definition queueNotifications (transfer : Transfer) (tx : option nat)
    : M unit :=
  let affectedAccounts := affected_accounts transfer in
  fulfillment <- fetch_fulfillment transfer tx ;;
  let notificationBody :=
    attach_fulfillment transfer fulfillment (generic_body transfer) in
  let affectedAccountUris := affected_account_uris affectedAccounts in
  subscriptions <-
    lift_outcome (getAffectedSubscriptions E affectedAccountUris
                    (in_transaction tx)) ;;
  match subscriptions with
  | None => ret tt
  | Some subscriptions =>
      notifications <-
        parallel (map (fun subscription =>
                         findOrCreate (s_id subscription) (t_id transfer)
                           (in_transaction tx))
                      subscriptions) ;;
      dispatch_detached affectedAccounts notificationBody notifications
        transfer subscriptions fulfillment
  end.

End Worker.

Arguments notifications {E} w.
Arguments signatureCache {E} w.
Arguments scheduler {E} w.
Arguments clock {E} w.
Arguments trace {E} w.
Arguments set_notifications {E} w rows.
Arguments set_signatureCache {E} w c.
Arguments set_scheduler {E} w s.
Arguments tick {E} w.
Arguments record_event {E} w e.
Arguments Done {E A} a.
Arguments Sync {E A X} m k.
Arguments Await {E A X} m k.
Arguments Settled {E A} o.
Arguments Suspended {E A} rest.

(** ** Vocabulary of the properties *)

(** How many stored notifications belong to the pair. *)
Definition count_pair (subscriptionID transferID : string) (rows : list Obj)
    : nat :=
  length (List.filter (matches_pair subscriptionID transferID) rows).

(** No stored notification carries this id. *)
Definition id_free (id : string) (rows : list Obj) : Prop :=
  existsb (has_id (Some id)) rows = false.

(** The id a creation would use: the caller's [defaults.id] when it is
    truthy, else the next generated one. *)
Definition candidate_id (E : Externals) (options : Options) (w : World E)
    : string :=
  let supplied := default ∅ (defaults options) !! "id" in
  if js_truthy_prop supplied then js_str supplied else uuid4 E (clock w).

(** Kinds of events. *)
Definition is_retry (e : Event) : bool :=
  match e with EvRetry _ => true | _ => false end.
Definition is_delete (e : Event) : bool :=
  match e with EvDelete _ => true | _ => false end.
Definition is_sign (e : Event) : bool :=
  match e with EvSign _ => true | _ => false end.
Definition is_send (e : Event) : bool :=
  match e with EvSend _ _ => true | _ => false end.
Definition is_emit (e : Event) : bool :=
  match e with EvEmit _ _ => true | _ => false end.
Definition is_schedule (e : Event) : bool :=
  match e with EvScheduleProcessing => true | _ => false end.
Definition is_insert (e : Event) : bool :=
  match e with EvInsert _ => true | _ => false end.

Definition count_events (p : Event -> bool) (evs : list Event) : nat :=
  length (List.filter p evs).

(** The events a run from [w] to [w'] added to the trace. *)
Definition new_events {E : Externals} (w w' : World E) : list Event :=
  drop (length (trace w)) (trace w').

(** The payloads handed to the transport, in order. *)
Definition sent_payloads (evs : list Event) : list Body :=
  flat_map (fun e => match e with EvSend _ p => [p] | _ => [] end) evs.

(** The local events emitted, in order. *)
Definition emitted (evs : list Event) : list (string * Body) :=
  flat_map (fun e => match e with EvEmit name b => [(name, b)] | _ => [] end)
           evs.

(** The payload a delivery attempt started in [w] hands to the transport:
    the body with what the cache slot reads when that is truthy, the
    signer's output otherwise. *)
Definition attempt_payload (E : Externals) (notification : Obj)
    (transfer : Transfer) (subscription : Subscription)
    (fulfillment : option Fulfillment) (w : World E) : Body :=
  let body :=
    build_notification_body E notification transfer subscription fulfillment in
  match cache_read (signatureCache w) (js_str (notification !! "id")) with
  | SlotOwn sig =>
      if js_truthy sig then with_signature body sig
      else sign E body "CC" (privateKey E)
  | SlotInherited =>
      with_signature_member body (js_str (notification !! "id"))
  | SlotUndefined => sign E body "CC" (privateKey E)
  end.

(** What the transport answers to that attempt. *)
Definition transport_answer (E : Externals) (notification : Obj)
    (transfer : Transfer) (subscription : Subscription)
    (fulfillment : option Fulfillment) (w : World E) : SendResult :=
  sendNotification E (clock w) (s_target subscription)
    (attempt_payload E notification transfer subscription fulfillment w).

(** A failed delivery: a status of 400 or more, or an exception. *)
Definition delivery_failed (r : SendResult) : Prop :=
  match r with
  | Responded statusCode _ => (400 <= statusCode)%Z
  | SendFailed _ => True
  end.

(** The world with some more events on its trace. *)
Definition append_events {E : Externals} (w : World E) (evs : list Event)
    : World E :=
  {| notifications := notifications w; signatureCache := signatureCache w;
     scheduler := scheduler w; clock := clock w;
     trace := (trace w ++ evs)%list |}.

(** A computation that only appends events of the kind [ok] to the trace. *)
Definition appends_only {E : Externals} {A : Type} (ok : Event -> bool)
    (m : M E A) : Prop :=
  forall w : World E,
    exists evs : list Event,
      trace (snd (m w)) = (trace w ++ evs)%list /\ forallb ok evs = true.

(** Neither a local event, nor a scheduling request, nor an insert. *)
Definition is_delivery_event (e : Event) : bool :=
  negb (is_emit e || is_schedule e || is_insert e).

(** The local events of one dispatch cycle: one per affected account, in
    order, all with the same body. *)
Definition local_events (affectedAccounts : list string) (body : Body)
    : list Event :=
  map (fun account => EvEmit ("transfer-" ++ account) body) affectedAccounts.

(** How the loop of emissions ends: normally, or with the exception of
    the first listener that throws. *)
Fixpoint emission_outcome (E : Externals) (body : Body)
    (affectedAccounts : list string) : outcome unit :=
  match affectedAccounts with
  | [] => Return tt
  | account :: rest =>
      match listeners E ("transfer-" ++ account) body with
      | Return _ => emission_outcome E body rest
      | Throw err => Throw err
      end
  end.

(** The accounts whose event is emitted: all of them, up to and including
    the first one whose listener throws. *)
Fixpoint reached_accounts (E : Externals) (body : Body)
    (affectedAccounts : list string) : list string :=
  match affectedAccounts with
  | [] => []
  | account :: rest =>
      account
      :: match listeners E ("transfer-" ++ account) body with
         | Return _ => reached_accounts E body rest
         | Throw _ => []
         end
  end.

(** What the detached block puts on the trace before it looks at the
    scheduler: its log line and the local events it emits. *)
Definition announcement (E : Externals) (affectedAccounts : list string)
    (body : Body) : list Event :=
  EvLog LDebug
    ("emitting transfer-{" ++ String.concat "," affectedAccounts ++ "}")
  :: local_events (reached_accounts E body affectedAccounts) body.

(** The warning of the detached block's handler (line 129). *)
Definition send_failed_warning (E : Externals) (err : string) : Event :=
  EvLog LWarn ("immediate notification send failed " ++ error_stack E err).

(** The object a creation inserts: the caller's defaults, the pair's
    identifiers on top of them, and the id of [candidate_id]. *)
Definition new_record (E : Externals) (subscriptionID transferID : string)
    (options : Options) (w : World E) : Obj :=
  <["id" := candidate_id E options w]>
    (js_assign (default ∅ (defaults options))
       (<["subscription_id" := subscriptionID]>
          {["transfer_id" := transferID]})).

(** The targets the transport was called with, in order. *)
Definition sent_targets (evs : list Event) : list string :=
  flat_map (fun e => match e with EvSend target _ => [target] | _ => [] end)
           evs.

(** One of the three lookups of a redelivery throws [err]: the transfer's,
    or else the subscription's, or else the fulfillment's. *)
Definition redelivery_lookup_fails (E : Externals) (notification : Obj)
    (err : string) : Prop :=
  getTransfer E (notification !! "transfer_id") = Throw err
  \/ exists transfer,
       getTransfer E (notification !! "transfer_id") = Return transfer
       /\ (getSubscription E (notification !! "subscription_id") = Throw err
           \/ exists subscription,
                getSubscription E (notification !! "subscription_id")
                = Return subscription
                /\ getFulfillment E (t_id transfer)
                     {| transaction := None; defaults := None |}
                   = Throw err).

(** The part of [queueNotifications] before the detached block throws
    [err]: the fulfillment lookup, or else the subscription lookup, or
    else the creation of the records. *)
Definition fan_out_fails_early (E : Externals) (transfer : Transfer)
    (tx : option nat) (w : World E) (err : string) : Prop :=
  fst (fetch_fulfillment E transfer tx w) = Throw err
  \/ exists fulfillment,
       fst (fetch_fulfillment E transfer tx w) = Return fulfillment
       /\ (getAffectedSubscriptions E
             (affected_account_uris E (affected_accounts transfer))
             (in_transaction tx) = Throw err
           \/ exists subs,
                getAffectedSubscriptions E
                  (affected_account_uris E (affected_accounts transfer))
                  (in_transaction tx) = Return (Some subs)
                /\ fst (parallel E
                          (map (fun subscription =>
                                  findOrCreate E (s_id subscription)
                                    (t_id transfer) (in_transaction tx))
                               subs) w) = Throw err).

(** ** Concrete collaborators, used to run the worker on examples *)

(** A scheduler whose state is its retry queue, a signer that derives the
    signature from the body's id, and a transport, a subscription lookup
    and a fulfillment lookup with scripted answers. *)
Definition example_externals (enabled retry_ok : bool)
    (respond : nat -> SendResult) (found : option (list Subscription))
    (fulfillment : option Fulfillment) : Externals :=
  {| Sched := list Obj;
     isEnabled := fun _ => enabled;
     retryNotification := fun queue notification =>
       if retry_ok then (Return tt, (queue ++ [notification])%list)
       else (Throw "retry queue unavailable", queue);
     scheduleProcessing := fun queue => (Return tt, queue);
     uri_make := fun kind name => "http://ledger.example/" ++ kind ++ "s/" ++ name;
     convertToExternalTransfer := fun transfer => "transfer " ++ t_id transfer;
     convertToExternalFulfillment := condition_fulfillment;
     sign := fun body algorithm key =>
       with_signature body (algorithm ++ ":" ++ key ++ ":" ++ js_str (b_id body));
     privateKey := "secret";
     uuid4 := fun n => "uuid-" ++ pretty n;
     sendNotification := fun n _ _ => respond n;
     getTransfer := fun _ => Throw "transfer not found";
     getSubscription := fun _ => Throw "subscription not found";
     getFulfillment := fun _ _ => Return fulfillment;
     getAffectedSubscriptions := fun _ _ => Return found;
     listeners := fun _ _ => Return tt;
     error_stack := fun err => err ++ " at <anonymous>" |}.

(** The transport answers 200 to everything, or 500 to everything. *)
Definition always_ok (n : nat) : SendResult := Responded 200 "ok".
Definition always_500 (n : nat) : SendResult := Responded 500 "error".

(** An enabled worker with a working retry queue and no subscriptions. *)
Definition example_E : Externals :=
  example_externals true true always_ok (Some []) None.

(** The same worker facing a transport that answers 500. *)
Definition example_E_500 : Externals :=
  example_externals true true always_500 (Some []) None.

Definition example_world (E : Externals) (queue : Sched E)
    (rows : list Obj) (cache : gmap string string) : World E :=
  {| notifications := rows; signatureCache := cache; scheduler := queue;
     clock := 0; trace := [] |}.

(** A stored notification of subscription [sub0] for transfer [T1]. *)
Definition example_row : Obj :=
  <["id" := "n0"]> (<["subscription_id" := "sub0"]>
                      {["transfer_id" := "T1"]}).

Definition example_subscription : Subscription :=
  {| s_id := "sub0"; s_owner := "alice"; s_target := "http://alice.example/hook" |}.

Definition example_transfer (state : TransferState) : Transfer :=
  {| t_id := "T1"; t_state := state;
     debits := [{| account := "bob"; amount := "10" |}];
     credits := [{| account := "alice"; amount := "10" |}] |}.

(** A worker with one subscription, [sub0], matching every transfer, and
    a transport answering 500. *)
Definition example_E_subscribed : Externals :=
  example_externals true true always_500 (Some [example_subscription]) None.

(** The same, with a scheduler whose retry interface throws. *)
Definition example_E_retry_fails : Externals :=
  example_externals true false always_500 (Some [example_subscription]) None.

(** The same, with a working but disabled scheduler. *)
Definition example_E_disabled : Externals :=
  example_externals false true always_500 (Some [example_subscription]) None.

(** The collaborators [E], with other listeners on the worker. *)
Definition with_listeners (E : Externals)
    (react : string -> Body -> outcome unit) : Externals :=
  {| Sched := Sched E;
     isEnabled := isEnabled E;
     retryNotification := retryNotification E;
     scheduleProcessing := scheduleProcessing E;
     uri_make := uri_make E;
     convertToExternalTransfer := convertToExternalTransfer E;
     convertToExternalFulfillment := convertToExternalFulfillment E;
     sign := sign E;
     privateKey := privateKey E;
     uuid4 := uuid4 E;
     sendNotification := sendNotification E;
     getTransfer := getTransfer E;
     getSubscription := getSubscription E;
     getFulfillment := getFulfillment E;
     getAffectedSubscriptions := getAffectedSubscriptions E;
     listeners := react;
     error_stack := error_stack E |}.

(** A listener on [transfer-bob] that throws; no other listener does. *)
Definition bob_listener_throws (name : string) (body : Body) : outcome unit :=
  if decide (name = "transfer-bob") then Throw "Error: listener failed"
  else Return tt.

(** The subscribed worker, enabled or disabled, with that listener. *)
Definition example_E_listener_throws : Externals :=
  with_listeners example_E_subscribed bob_listener_throws.

Definition example_E_disabled_listener_throws : Externals :=
  with_listeners example_E_disabled bob_listener_throws.

(** A worker whose subscription lookup comes back with no result. *)
Definition example_E_no_result : Externals :=
  example_externals true true always_ok None None.

(** A transfer with the same account on both sides. *)
Definition example_round_trip : Transfer :=
  {| t_id := "T2"; t_state := TRANSFER_STATE_PREPARED;
     debits := [{| account := "alice"; amount := "10" |}];
     credits := [{| account := "alice"; amount := "10" |}] |}.

(** The record created for [sub0] and transfer [T1] in an empty table. *)
Definition example_created_row : Obj :=
  <["id" := "uuid-0"]>
    (js_assign ∅ (<["subscription_id" := "sub0"]> {["transfer_id" := "T1"]})).

(** Options naming an id, another subscription and one more field. *)
Definition example_options : Options :=
  {| transaction := None;
     defaults :=
       Some (<["id" := "chosen"]>
               (<["subscription_id" := "other"]> {["retry_count" := "3"]})) |}.

(** A stored notification of another pair that holds the id the generator
    gives first. *)
Definition example_clash_row : Obj :=
  <["id" := "uuid-0"]> (<["subscription_id" := "sub9"]>
                          {["transfer_id" := "T9"]}).

(** * Properties *)

Section ListFacts.

Context {A : Type} (p : A -> bool).

Lemma find_app_miss (l l' : list A) :
  find p l = None -> find p (l ++ l')%list = find p l'.
Proof.
  induction l as [|x l IH]; simpl; [done|].
  destruct (p x); [done|auto].
Qed.

Lemma find_none_of_existsb (l : list A) :
  existsb p l = false -> find p l = None.
Proof.
  induction l as [|x l IH]; simpl; [done|].
  destruct (p x); simpl; [done|auto].
Qed.

Lemma filter_nil_find (l : list A) :
  length (List.filter p l) = 0 -> find p l = None.
Proof.
  induction l as [|x l IH]; simpl; [done|].
  destruct (p x); simpl; [done|auto].
Qed.

Lemma find_some_filter (l : list A) (x : A) :
  find p l = Some x -> 1 <= length (List.filter p l).
Proof.
  induction l as [|y l IH]; simpl; [done|].
  destruct (p y); simpl; [lia|auto].
Qed.

Lemma find_is_some_or_filter_nil (l : list A) :
  (exists x, find p l = Some x /\ p x = true)
  \/ (find p l = None /\ length (List.filter p l) = 0).
Proof.
  induction l as [|y l IH]; simpl; [by right|].
  destruct (p y) eqn:Hy; [left; eauto|exact IH].
Qed.

End ListFacts.

Section FindOrCreate.

Variable E : Externals.

(** The object inserted by a creation: the caller's defaults, with the
    pair's identifiers on top and an id. *)
Lemma assigned_id (d : Obj) (subscriptionID transferID : string) :
  js_assign d (<["subscription_id" := subscriptionID]>
                 {["transfer_id" := transferID]}) !! "id" = d !! "id".
Proof.
  unfold js_assign. rewrite lookup_union_r; [done|].
  by rewrite lookup_insert_ne, lookup_singleton_ne.
Qed.

Lemma assigned_subscription (d : Obj) (subscriptionID transferID : string) :
  js_assign d (<["subscription_id" := subscriptionID]>
                 {["transfer_id" := transferID]}) !! "subscription_id"
  = Some subscriptionID.
Proof.
  unfold js_assign. apply lookup_union_Some_l. by rewrite lookup_insert_eq.
Qed.

Lemma assigned_transfer (d : Obj) (subscriptionID transferID : string) :
  js_assign d (<["subscription_id" := subscriptionID]>
                 {["transfer_id" := transferID]}) !! "transfer_id"
  = Some transferID.
Proof.
  unfold js_assign. apply lookup_union_Some_l.
  by rewrite lookup_insert_ne, lookup_singleton_eq.
Qed.

Lemma count_pair_app (subscriptionID transferID : string) (l l' : list Obj) :
  count_pair subscriptionID transferID (l ++ l')%list
  = count_pair subscriptionID transferID l
    + count_pair subscriptionID transferID l'.
Proof. unfold count_pair. by rewrite List.filter_app, length_app. Qed.

(** A found record is returned as it is, whatever the options say, and
    the world is left as it was. *)
Lemma findOrCreate_found (w : World E) (subscriptionID transferID : string)
    (options : Options) (r : Obj) :
  find (matches_pair subscriptionID transferID) (notifications w) = Some r ->
  findOrCreate E subscriptionID transferID options w = (Return (Some r), w).
Proof.
  intros Hfind. unfold findOrCreate, bind, getMatchingNotification.
  by rewrite Hfind.
Qed.

(** With no record for the pair and a free id, a record is inserted at
    the end of the table and read back. *)
Lemma findOrCreate_created (w : World E) (subscriptionID transferID : string)
    (options : Options) :
  find (matches_pair subscriptionID transferID) (notifications w) = None ->
  id_free (candidate_id E options w) (notifications w) ->
  exists (n : Obj) (w1 : World E),
    findOrCreate E subscriptionID transferID options w
      = (Return (Some n), w1)
    /\ notifications w1 = (notifications w ++ [n])%list
    /\ n !! "id" = Some (candidate_id E options w)
    /\ matches_pair subscriptionID transferID n = true.
Proof.
  intros Hnone Hfree.
  unfold findOrCreate, bind, getMatchingNotification. rewrite Hnone.
  unfold candidate_id, id_free in *.
  set (d := default ∅ (defaults options)) in *.
  set (v := js_assign d _).
  assert (Hid : v !! "id" = d !! "id") by apply assigned_id.
  assert (Hs : v !! "subscription_id" = Some subscriptionID)
    by apply assigned_subscription.
  assert (Ht : v !! "transfer_id" = Some transferID)
    by apply assigned_transfer.
  rewrite Hid.
  destruct (js_truthy_prop (d !! "id")) eqn:Htruthy.
  - destruct (d !! "id") as [i|] eqn:Hd; [|done]. simpl in Hfree.
    unfold ret, insertNotification, getNotification. simpl.
    rewrite Hid, Hfree. simpl.
    exists v, (record_event (set_notifications w (notifications w ++ [v])%list)
                 (EvInsert v)).
    rewrite find_app_miss by (by apply find_none_of_existsb).
    simpl. rewrite Hid, bool_decide_eq_true_2 by done.
    repeat split; try done.
    unfold matches_pair. by rewrite Hs, Ht, !bool_decide_eq_true_2.
  - unfold uuid4_call, ret, insertNotification, getNotification. simpl.
    set (i := uuid4 E (clock w)) in *.
    rewrite lookup_insert_eq, Hfree. simpl.
    exists (<["id" := i]> v),
      (record_event
         (set_notifications (tick w)
            (notifications w ++ [<["id" := i]> v])%list)
         (EvInsert (<["id" := i]> v))).
    rewrite find_app_miss by (by apply find_none_of_existsb).
    simpl. rewrite lookup_insert_eq, bool_decide_eq_true_2 by done.
    repeat split; try done.
    unfold matches_pair.
    rewrite !lookup_insert_ne by done.
    by rewrite Hs, Ht, !bool_decide_eq_true_2.
Qed.

(** C1.  Calling [findOrCreate] twice in a row for the pair (S, T), in a
    table that holds at most one record for the pair and where the id a
    creation would use is free, leaves exactly one stored record for the
    pair: both calls return the same record (so the same id), and the
    second call finds it and changes nothing, whatever its options. *)
Theorem findOrCreate_twice_one_record (w : World E)
    (subscriptionID transferID : string) (options1 options2 : Options) :
  count_pair subscriptionID transferID (notifications w) <= 1 ->
  (count_pair subscriptionID transferID (notifications w) = 0 ->
   id_free (candidate_id E options1 w) (notifications w)) ->
  exists (n : Obj) (w1 : World E),
    findOrCreate E subscriptionID transferID options1 w
      = (Return (Some n), w1)
    /\ findOrCreate E subscriptionID transferID options2 w1
      = (Return (Some n), w1)
    /\ count_pair subscriptionID transferID (notifications w1) = 1
    /\ n !! "subscription_id" = Some subscriptionID
    /\ n !! "transfer_id" = Some transferID.
Proof.
  intros Hle Hfree.
  assert (Hpair : forall n : Obj,
            matches_pair subscriptionID transferID n = true ->
            n !! "subscription_id" = Some subscriptionID
            /\ n !! "transfer_id" = Some transferID).
  { intros n Hn. unfold matches_pair in Hn.
    apply andb_true_iff in Hn as [H1 H2].
    by apply bool_decide_eq_true_1 in H1, H2. }
  destruct (find_is_some_or_filter_nil
              (matches_pair subscriptionID transferID) (notifications w))
    as [(r & Hfind & Hr) | [Hnone Hzero]].
  - exists r, w.
    rewrite !(findOrCreate_found _ _ _ _ r) by done.
    repeat split; try (by apply Hpair).
    apply find_some_filter in Hfind. unfold count_pair in *. lia.
  - destruct (findOrCreate_created w subscriptionID transferID options1)
      as (n & w1 & Hrun & Hrows & _ & Hn); [done|by apply Hfree|].
    exists n, w1. rewrite Hrun.
    rewrite (findOrCreate_found _ _ _ _ n).
    + repeat split; try (by apply Hpair).
      rewrite Hrows, count_pair_app. fold (count_pair subscriptionID
        transferID (notifications w)) in Hzero. rewrite Hzero.
      unfold count_pair. simpl. by rewrite Hn.
    + rewrite Hrows, find_app_miss by done. simpl. by rewrite Hn.
Qed.

(** C10.  When a record already exists for the pair, the options of the
    call (an explicit id, other defaults) play no part: the existing
    record is returned as it is and the world, the table included, is
    unchanged, so no record with the supplied id is created. *)
Theorem findOrCreate_existing_ignores_options (w : World E)
    (subscriptionID transferID : string) (options : Options) (r : Obj) :
  find (matches_pair subscriptionID transferID) (notifications w) = Some r ->
  findOrCreate E subscriptionID transferID options w = (Return (Some r), w)
  /\ (forall options', findOrCreate E subscriptionID transferID options' w
                       = findOrCreate E subscriptionID transferID options w).
Proof.
  intros Hfind. split.
  - by apply findOrCreate_found.
  - intros options'. by rewrite !(findOrCreate_found _ _ _ _ r).
Qed.

End FindOrCreate.

Lemma findOrCreate_twice_one_record_witness :
  exists (n : Obj) (w1 : World example_E),
    findOrCreate example_E "sub1" "T1" (in_transaction None)
      (example_world example_E [] [example_row] ∅) = (Return (Some n), w1)
    /\ findOrCreate example_E "sub1" "T1" (in_transaction (Some 7)) w1
      = (Return (Some n), w1)
    /\ count_pair "sub1" "T1" (notifications w1) = 1
    /\ n !! "subscription_id" = Some "sub1"
    /\ n !! "transfer_id" = Some "T1".
Proof.
  apply (findOrCreate_twice_one_record example_E
           (example_world example_E [] [example_row] ∅) "sub1" "T1"
           (in_transaction None) (in_transaction (Some 7))).
  - vm_compute. lia.
  - intros _. vm_compute. reflexivity.
Defined.

Lemma findOrCreate_existing_ignores_options_witness :
  let w := example_world example_E [] [example_row] ∅ in
  let options :=
    {| transaction := None; defaults := Some {["id" := "chosen"]} |} in
  findOrCreate example_E "sub0" "T1" options w = (Return (Some example_row), w)
  /\ (forall options', findOrCreate example_E "sub0" "T1" options' w
                       = findOrCreate example_E "sub0" "T1" options w).
Proof.
  apply (findOrCreate_existing_ignores_options example_E
           (example_world example_E [] [example_row] ∅) "sub0" "T1"
           {| transaction := None; defaults := Some {["id" := "chosen"]} |}
           example_row).
  vm_compute. reflexivity.
Defined.

Section Delivery.

Variable E : Externals.

Lemma new_events_app (w w' : World E) (evs : list Event) :
  trace w' = (trace w ++ evs)%list -> new_events w w' = evs.
Proof. intros H. unfold new_events. rewrite H. apply drop_app_length. Qed.

Lemma find_after_delete (id : option string) (rows : list Obj) :
  find (has_id id) (List.filter (fun row => negb (has_id id row)) rows) = None.
Proof.
  induction rows as [|r rows IH]; simpl; [done|].
  destruct (has_id id r) eqn:Hr; simpl; [done|]. by rewrite Hr.
Qed.

(** The signing step returns the payload of the attempt; it signs at most
    once, and leaves in the cache slot the signature the payload carries. *)
Lemma sign_notification_run (notification : Obj) (transfer : Transfer)
    (subscription : Subscription) (fulfillment : option Fulfillment)
    (w0 w : World E) :
  signatureCache w0 = signatureCache w ->
  exists (w2 : World E) (evs : list Event),
    sign_notification E notification
      (build_notification_body E notification transfer subscription
         fulfillment) w0
    = (Return (attempt_payload E notification transfer subscription
                 fulfillment w), w2)
    /\ trace w2 = (trace w0 ++ evs)%list
    /\ count_events is_sign evs <= 1
    /\ sent_payloads evs = []
    /\ List.filter (fun e => negb (is_sign e)) evs = []
    /\ (forall sig, signatureCache w !! js_str (notification !! "id")
                    = Some sig ->
                    js_truthy sig = true -> evs = [] /\ w2 = w0)
    /\ signatureCache w2 !! js_str (notification !! "id")
       = b_signature (attempt_payload E notification transfer subscription
                        fulfillment w)
    /\ (forall k, k <> js_str (notification !! "id") ->
                  signatureCache w2 !! k = signatureCache w !! k)
    /\ notifications w2 = notifications w0
    /\ scheduler w2 = scheduler w0
    /\ clock w2 = clock w0.
Proof.
  intros Hcache.
  unfold sign_notification, attempt_payload, cache_read. rewrite Hcache.
  set (key := js_str (notification !! "id")).
  set (body := build_notification_body E notification transfer subscription
                 fulfillment).
  assert (Hmiss :
    exists (w2 : World E) (evs : list Event),
      sign_and_cache E key body w0
      = (Return (sign E body "CC" (privateKey E)), w2)
      /\ trace w2 = (trace w0 ++ evs)%list
      /\ count_events is_sign evs <= 1
      /\ sent_payloads evs = []
      /\ List.filter (fun e => negb (is_sign e)) evs = []
      /\ signatureCache w2 !! key
         = b_signature (sign E body "CC" (privateKey E))
      /\ (forall k, k <> key ->
                    signatureCache w2 !! k = signatureCache w !! k)
      /\ notifications w2 = notifications w0
      /\ scheduler w2 = scheduler w0
      /\ clock w2 = clock w0).
  { unfold sign_and_cache. eexists _, [EvSign body]. rewrite Hcache.
    split; [reflexivity|]. simpl. repeat split; try done.
    - destruct (b_signature (sign E body "CC" (privateKey E)));
        [by rewrite lookup_insert_eq|by rewrite lookup_delete_eq].
    - intros k Hk.
      destruct (b_signature (sign E body "CC" (privateKey E)));
        [by rewrite lookup_insert_ne|by rewrite lookup_delete_ne]. }
  destruct (signatureCache w !! key) as [sig|] eqn:Hslot.
  - destruct (js_truthy sig) eqn:Htruthy.
    + exists w0, []. rewrite app_nil_r. simpl.
      repeat split; try done.
      * unfold count_events. simpl. lia.
      * by rewrite Hcache.
      * intros k _. by rewrite Hcache.
    + destruct Hmiss as (w2 & evs & H1 & H2 & H3 & H4 & H5 & H6 & H7 & H8).
      exists w2, evs. repeat split; try done; try apply H8.
      all: congruence.
  - destruct (is_object_prototype_member key).
    + exists w0, []. rewrite app_nil_r. simpl.
      repeat split; try done.
      * unfold count_events. simpl. lia.
      * by rewrite Hcache.
      * intros k _. by rewrite Hcache.
    + destruct Hmiss as (w2 & evs & H1 & H2 & H3 & H4 & H5 & H6 & H7 & H8).
      exists w2, evs. repeat split; try done; apply H8.
Qed.

(** One attempt, step by step: the log line, the signing step, the call
    to the transport, then either the clean-up or the hand-over to the
    scheduler, according to the transport's answer. *)
Lemma attempt_run (notification : Obj) (transfer : Transfer)
    (subscription : Subscription) (fulfillment : option Fulfillment)
    (w : World E) :
  let key := js_str (notification !! "id") in
  let payload :=
    attempt_payload E notification transfer subscription fulfillment w in
  let line := EvLog LDebug ("sending notification to " ++ s_target subscription) in
  exists (w2 : World E) (evs : list Event),
    trace w2 = (trace w ++ line :: evs)%list
    /\ count_events is_sign evs <= 1
    /\ List.filter (fun e => negb (is_sign e)) evs = []
    /\ (forall sig, signatureCache w !! key = Some sig ->
                    js_truthy sig = true ->
                    evs = [] /\ signatureCache w2 = signatureCache w)
    /\ signatureCache w2 !! key = b_signature payload
    /\ (forall k, k <> key -> signatureCache w2 !! k = signatureCache w !! k)
    /\ notifications w2 = notifications w
    /\ scheduler w2 = scheduler w
    /\ clock w2 = clock w
    /\ processNotificationWithInstances E notification transfer subscription
         fulfillment w
       = let w3 :=
           tick (record_event w2 (EvSend (s_target subscription) payload)) in
         match transport_answer E notification transfer subscription
                 fulfillment w with
         | Responded statusCode _ =>
             if (statusCode <? 400)%Z
             then deleteNotification E (notification !! "id")
                    (set_signatureCache w3 (delete key (signatureCache w3)))
             else scheduler_retryNotification E notification
                    (record_event
                       (record_event w3
                          (EvLog LDebug "remote error for notification"))
                       (EvLog LDebug "signedNotification"))
         | SendFailed err =>
             scheduler_retryNotification E notification
               (record_event w3
                  (EvLog LDebug ("notification send failed " ++ err)))
         end.
Proof.
  intros key payload line.
  destruct (sign_notification_run notification transfer subscription
              fulfillment (record_event w line) w)
    as (w2 & evs & Hrun & Htrace & Hcount & _ & Honly & Hhit & Hslot & Hother
        & Hrows & Hsched & Hclock); [done|].
  exists w2, evs. simpl in Htrace.
  split. { rewrite Htrace. by rewrite <- app_assoc. }
  split; [done|]. split; [done|].
  split. { intros sig H1 H2. destruct (Hhit sig H1 H2) as [-> ->]. done. }
  split; [done|]. split; [done|]. split; [done|]. split; [done|].
  split; [done|].
  unfold processNotificationWithInstances, bind at 1, log, emit_event.
  unfold bind at 1. fold line. rewrite Hrun.
  unfold bind at 1, send_and_decide, try_catch, bind at 1,
    utils_sendNotification, transport_answer.
  fold payload. rewrite Hclock. simpl.
  destruct (sendNotification E (clock w) (s_target subscription) payload)
    as [statusCode body|err]; simpl.
  - destruct (statusCode <? 400)%Z; simpl; [|done].
    unfold bind, forget_signature. done.
  - done.
Qed.

Lemma count_events_app (p : Event -> bool) (l l' : list Event) :
  count_events p (l ++ l')%list = count_events p l + count_events p l'.
Proof. unfold count_events. by rewrite List.filter_app, length_app. Qed.

Lemma count_events_cons (p : Event -> bool) (e : Event) (l : list Event) :
  count_events p (e :: l) = (if p e then 1 else 0) + count_events p l.
Proof. unfold count_events. simpl. by destruct (p e). Qed.

Lemma sent_payloads_app (l l' : list Event) :
  sent_payloads (l ++ l')%list = (sent_payloads l ++ sent_payloads l')%list.
Proof. unfold sent_payloads. by rewrite flat_map_app. Qed.

(** Events that are all signings count zero under any other kind. *)
Lemma only_signs_count (p : Event -> bool) (evs : list Event) :
  (forall e, p e = true -> is_sign e = false) ->
  List.filter (fun e => negb (is_sign e)) evs = [] ->
  count_events p evs = 0.
Proof.
  intros Hp. induction evs as [|e evs IH]; simpl; [done|].
  destruct (is_sign e) eqn:He; simpl; intros Hevs; [|discriminate].
  rewrite count_events_cons, (IH Hevs).
  destruct (p e) eqn:Hpe; [|done]. apply Hp in Hpe. congruence.
Qed.

Lemma only_signs_sent (evs : list Event) :
  List.filter (fun e => negb (is_sign e)) evs = [] -> sent_payloads evs = [].
Proof.
  induction evs as [|e evs IH]; simpl; [done|].
  destruct e; simpl; done.
Qed.

Lemma only_signs_emitted (evs : list Event) :
  List.filter (fun e => negb (is_sign e)) evs = [] -> emitted evs = [].
Proof.
  induction evs as [|e evs IH]; simpl; [done|].
  destruct e; simpl; done.
Qed.

(** The events of one attempt, whatever the transport answers: the log
    line, at most one signing, one send carrying the attempt's payload,
    and then either the delete or some log lines and the retry. *)
Lemma attempt_events (notification : Obj) (transfer : Transfer)
    (subscription : Subscription) (fulfillment : option Fulfillment)
    (w : World E) :
  let key := js_str (notification !! "id") in
  let payload :=
    attempt_payload E notification transfer subscription fulfillment w in
  let w' := snd (processNotificationWithInstances E notification transfer
                   subscription fulfillment w) in
  exists (evs tail : list Event) (text : string),
    trace w'
    = (trace w ++ EvLog LDebug text :: evs
         ++ EvSend (s_target subscription) payload :: tail)%list
    /\ count_events is_sign evs <= 1
    /\ List.filter (fun e => negb (is_sign e)) evs = []
    /\ (forall sig, signatureCache w !! key = Some sig ->
                    js_truthy sig = true -> evs = [])
    /\ (tail = [EvDelete key]
        \/ (exists logs, tail = (logs ++ [EvRetry notification])%list
                         /\ Forall (fun e => exists t, e = EvLog LDebug t)
                                   logs)).
Proof.
  intros key payload w'.
  destruct (attempt_run notification transfer subscription fulfillment w)
    as (w2 & evs & Htrace & Hcount & Honly & Hhit & _ & _ & _ & _ & _ & Hrun).
  subst w'. rewrite Hrun. clear Hrun. fold payload. fold key.
  exists evs.
  destruct (transport_answer E notification transfer subscription
              fulfillment w) as [statusCode body|err].
  - destruct (statusCode <? 400)%Z.
    + eexists [EvDelete key], _. split; [|repeat split; eauto].
      * simpl. rewrite Htrace.
        repeat (rewrite <- app_assoc; simpl). reflexivity.
      * intros sig H1 H2. by destruct (Hhit sig H1 H2).
    + eexists _, _. split; [|repeat split].
      * simpl. rewrite Htrace.
        repeat (rewrite <- app_assoc; simpl). reflexivity.
      * done.
      * done.
      * intros sig H1 H2. by destruct (Hhit sig H1 H2).
      * right. exists [EvLog LDebug "remote error for notification";
                       EvLog LDebug "signedNotification"].
        split; [done|]. repeat constructor; eauto.
  - eexists _, _. split; [|repeat split].
    + simpl. rewrite Htrace.
      repeat (rewrite <- app_assoc; simpl). reflexivity.
    + done.
    + done.
    + intros sig H1 H2. by destruct (Hhit sig H1 H2).
    + right. exists [EvLog LDebug ("notification send failed " ++ err)].
      split; [done|]. repeat constructor; eauto.
Qed.

(** C2.  When the transport answers with a status below 400, the attempt
    returns normally; it has deleted the notification's record from the
    store (a later lookup of the id finds nothing), removed the
    signature-cache entry of the notification id, made exactly one delete
    and no call to the scheduler's retry interface, and left the
    scheduler as it was. *)
Theorem delivery_success_cleans_up (notification : Obj) (transfer : Transfer)
    (subscription : Subscription) (fulfillment : option Fulfillment)
    (w : World E) (statusCode : Z) (body : string) :
  transport_answer E notification transfer subscription fulfillment w
    = Responded statusCode body ->
  (statusCode < 400)%Z ->
  exists w' : World E,
    processNotificationWithInstances E notification transfer subscription
      fulfillment w = (Return tt, w')
    /\ notifications w'
       = List.filter (fun row => negb (has_id (notification !! "id") row))
                     (notifications w)
    /\ (forall options,
          getNotification E (notification !! "id") options w'
          = (Return None, w'))
    /\ signatureCache w' !! js_str (notification !! "id") = None
    /\ count_events is_delete (new_events w w') = 1
    /\ count_events is_retry (new_events w w') = 0
    /\ scheduler w' = scheduler w.
Proof.
  intros Hanswer Hlt.
  destruct (attempt_run notification transfer subscription fulfillment w)
    as (w2 & evs & Htrace & _ & Honly & _ & _ & _ & Hrows & Hsched & _ & Hrun).
  rewrite Hanswer in Hrun.
  apply Z.ltb_lt in Hlt. rewrite Hlt in Hrun.
  rewrite Hrun. clear Hrun. unfold deleteNotification. simpl.
  eexists. split; [reflexivity|]. simpl.
  rewrite Hrows, Hsched.
  split; [done|].
  split. { intros options. unfold getNotification. simpl.
           by rewrite find_after_delete. }
  split; [by rewrite lookup_delete_eq|].
  erewrite new_events_app
    by (simpl; rewrite Htrace; repeat (rewrite <- app_assoc; simpl);
        reflexivity).
  rewrite !count_events_cons, !count_events_app, !count_events_cons.
  rewrite !(only_signs_count _ evs) by (done || by intros []).
  done.
Qed.

(** C3.  When the transport answers with a status of 400 or more, or
    throws, the attempt deletes nothing: the store is as it was, the
    signature-cache slot of the notification id holds the signature the
    payload carried (and a cache that already held a usable signature is
    untouched).  The scheduler's retry interface is called exactly once,
    and what the attempt returns or throws is what that call returned or
    threw: the transport's exception goes no further. *)
Theorem delivery_failure_keeps_state (notification : Obj)
    (transfer : Transfer) (subscription : Subscription)
    (fulfillment : option Fulfillment) (w : World E) :
  delivery_failed
    (transport_answer E notification transfer subscription fulfillment w) ->
  exists w' : World E,
    processNotificationWithInstances E notification transfer subscription
      fulfillment w
    = (fst (retryNotification E (scheduler w) notification), w')
    /\ notifications w' = notifications w
    /\ signatureCache w' !! js_str (notification !! "id")
       = b_signature (attempt_payload E notification transfer subscription
                        fulfillment w)
    /\ (forall sig,
          signatureCache w !! js_str (notification !! "id") = Some sig ->
          js_truthy sig = true -> signatureCache w' = signatureCache w)
    /\ count_events is_delete (new_events w w') = 0
    /\ count_events is_retry (new_events w w') = 1
    /\ scheduler w' = snd (retryNotification E (scheduler w) notification).
Proof.
  intros Hfailed.
  destruct (attempt_run notification transfer subscription fulfillment w)
    as (w2 & evs & Htrace & _ & Honly & Hhit & Hslot & _ & Hrows & Hsched & _
        & Hrun).
  assert (Hge : forall statusCode : Z,
            (400 <= statusCode)%Z -> (statusCode <? 400)%Z = false)
    by (intros; by apply Z.ltb_ge).
  rewrite Hrun. clear Hrun.
  destruct (transport_answer E notification transfer subscription
              fulfillment w) as [statusCode body|err];
    simpl in Hfailed; [rewrite (Hge _ Hfailed)|];
    unfold scheduler_retryNotification; simpl; rewrite Hsched;
    (eexists; split; [reflexivity|]); simpl;
    (split; [done|]); (split; [done|]);
    (split; [intros sig H1 H2; by destruct (Hhit sig H1 H2)|]);
    (erewrite new_events_app
       by (simpl; rewrite Htrace; repeat (rewrite <- app_assoc; simpl);
           reflexivity));
    rewrite !count_events_cons, !count_events_app, !count_events_cons;
    rewrite !(only_signs_count _ evs) by (done || by intros []);
    done.
Qed.

Lemma emitted_app (l l' : list Event) :
  emitted (l ++ l')%list = (emitted l ++ emitted l')%list.
Proof. unfold emitted. by rewrite flat_map_app. Qed.

Lemma log_lines_quiet (logs : list Event) :
  Forall (fun e => exists t, e = EvLog LDebug t) logs ->
  sent_payloads logs = [] /\ emitted logs = []
  /\ (forall p : Event -> bool,
        (forall level text, p (EvLog level text) = false) ->
        count_events p logs = 0).
Proof.
  induction 1 as [|e logs [t ->] _ (IH1 & IH2 & IH3)]; [done|].
  simpl. repeat split; try done.
  intros p Hp. by rewrite count_events_cons, Hp, IH3.
Qed.

(** What one attempt adds to the trace, in numbers: one send, carrying
    the attempt's payload; at most one signing, none when the cache slot
    was usable; no local event, no scheduling request, no insert. *)
Lemma attempt_summary (notification : Obj) (transfer : Transfer)
    (subscription : Subscription) (fulfillment : option Fulfillment)
    (w : World E) :
  let evs :=
    new_events w
      (snd (processNotificationWithInstances E notification transfer
              subscription fulfillment w)) in
  sent_payloads evs
  = [attempt_payload E notification transfer subscription fulfillment w]
  /\ count_events is_sign evs <= 1
  /\ (forall sig,
        signatureCache w !! js_str (notification !! "id") = Some sig ->
        js_truthy sig = true -> count_events is_sign evs = 0)
  /\ emitted evs = []
  /\ count_events is_schedule evs = 0
  /\ count_events is_insert evs = 0.
Proof.
  intros evs.
  destruct (attempt_events notification transfer subscription fulfillment w)
    as (signs & tail & text & Hnew & Hcount & Honly & Hhit & Htail).
  subst evs. rewrite (new_events_app _ _ _ Hnew). clear Hnew.
  assert (Hquiet : sent_payloads tail = [] /\ emitted tail = []
                   /\ count_events is_sign tail = 0
                   /\ count_events is_schedule tail = 0
                   /\ count_events is_insert tail = 0).
  { destruct Htail as [->|(logs & -> & Hlogs)]; [done|].
    apply log_lines_quiet in Hlogs as (H1 & H2 & H3).
    rewrite sent_payloads_app, emitted_app, !count_events_app, H1, H2.
    rewrite !H3 by done. done. }
  destruct Hquiet as (Q1 & Q2 & Q3 & Q4 & Q5).
  change (EvLog LDebug text :: signs
            ++ EvSend (s_target subscription)
                 (attempt_payload E notification transfer subscription
                    fulfillment w) :: tail)%list
    with ([EvLog LDebug text] ++ signs
            ++ [EvSend (s_target subscription)
                  (attempt_payload E notification transfer subscription
                     fulfillment w)] ++ tail)%list.
  rewrite !sent_payloads_app, !emitted_app, !count_events_app.
  rewrite Q1, Q2, Q3, Q4, Q5.
  rewrite (only_signs_sent signs), (only_signs_emitted signs) by done.
  rewrite (only_signs_count is_schedule signs),
    (only_signs_count is_insert signs) by (done || by intros []).
  simpl. repeat split; try done.
  - lia.
  - intros sig H1 H2. rewrite (Hhit sig H1 H2). done.
Qed.

(** C4.  Two attempts for the same notification id, the first one failed
    and nothing having changed that id's cache slot in between: the two
    payloads carry the same signature.  The first attempt left it in the
    cache; the second attaches the cached value to the body it rebuilt and
    does not call the signer, so the signer is called at most once over
    the two attempts.  (The signature is assumed truthy, as the cache is
    tested for truthiness.) *)
Theorem signature_reused_across_attempts
    (notification notification' : Obj) (transfer transfer' : Transfer)
    (subscription subscription' : Subscription)
    (fulfillment fulfillment' : option Fulfillment) (w w2 : World E) :
  let key := js_str (notification !! "id") in
  let w1 := snd (processNotificationWithInstances E notification transfer
                   subscription fulfillment w) in
  let w3 := snd (processNotificationWithInstances E notification' transfer'
                   subscription' fulfillment' w2) in
  notification' !! "id" = notification !! "id" ->
  delivery_failed
    (transport_answer E notification transfer subscription fulfillment w) ->
  js_truthy_prop
    (b_signature (attempt_payload E notification transfer subscription
                    fulfillment w)) = true ->
  signatureCache w2 !! key = signatureCache w1 !! key ->
  exists (p1 p2 : Body) (sig : string),
    sent_payloads (new_events w w1) = [p1]
    /\ sent_payloads (new_events w2 w3) = [p2]
    /\ b_signature p1 = Some sig
    /\ b_signature p2 = Some sig
    /\ signatureCache w1 !! key = Some sig
    /\ p2 = with_signature
              (build_notification_body E notification' transfer'
                 subscription' fulfillment') sig
    /\ count_events is_sign (new_events w2 w3) = 0
    /\ count_events is_sign (new_events w w1)
       + count_events is_sign (new_events w2 w3) <= 1.
Proof.
  intros key w1 w3 Hid Hfailed Htruthy Hkept.
  assert (Hslot : signatureCache w1 !! key
                  = b_signature (attempt_payload E notification transfer
                                   subscription fulfillment w)).
  { destruct (attempt_run notification transfer subscription fulfillment w)
      as (wa & evs & _ & _ & _ & _ & Hslot & _ & _ & _ & _ & Hrun).
    subst w1. rewrite Hrun. clear Hrun.
    destruct (transport_answer E notification transfer subscription
                fulfillment w) as [statusCode body|err]; simpl in Hfailed.
    - apply Z.ltb_ge in Hfailed. rewrite Hfailed. exact Hslot.
    - exact Hslot. }
  destruct (attempt_summary notification transfer subscription fulfillment w)
    as (Hsent1 & Hsign1 & _).
  destruct (attempt_summary notification' transfer' subscription'
              fulfillment' w2) as (Hsent2 & _ & Hsign2 & _).
  fold w1 in Hsent1, Hsign1. fold w3 in Hsent2, Hsign2.
  destruct (b_signature (attempt_payload E notification transfer subscription
                           fulfillment w)) as [sig|] eqn:Hsig; [|done].
  simpl in Htruthy.
  rewrite Hid in Hsign2. fold key in Hsign2.
  rewrite Hslot in Hkept.
  specialize (Hsign2 sig Hkept Htruthy).
  assert (Hp2 : attempt_payload E notification' transfer' subscription'
                  fulfillment' w2
                = with_signature
                    (build_notification_body E notification' transfer'
                       subscription' fulfillment') sig).
  { unfold attempt_payload, cache_read. rewrite Hid. fold key.
    by rewrite Hkept, Htruthy. }
  eexists _, _, sig.
  split; [exact Hsent1|]. split; [exact Hsent2|].
  split; [exact Hsig|]. split; [by rewrite Hp2|].
  split; [done|]. split; [done|]. split; [done|]. lia.
Qed.

(** C6.  Which fulfillment a body carries.  With a fulfillment present,
    an executed transfer's body has [related_resources] with the single
    key [execution_condition_fulfillment], a rejected transfer's body the
    single key [cancellation_condition_fulfillment], each bound to the
    converted fulfillment, and a transfer in any other state has no
    [related_resources]; without a fulfillment there is none either.
    This holds of the body built for a subscriber, of that body once a
    cached signature is attached, and of the body emitted locally; the
    latter's fulfillment is looked up for finalized transfers only. *)
Theorem fulfillment_attachment_policy (notification : Obj)
    (transfer : Transfer) (subscription : Subscription) (f : Fulfillment)
    (sig : string) (tx : option nat) (w : World E) :
  let payload fulfillment :=
    build_notification_body E notification transfer subscription
      fulfillment in
  let local fulfillment :=
    attach_fulfillment E transfer fulfillment (generic_body E transfer) in
  let converted := convertToExternalFulfillment E f in
  match t_state transfer with
  | TRANSFER_STATE_EXECUTED =>
      b_related_resources (payload (Some f))
      = Some {[ "execution_condition_fulfillment" := converted ]}
      /\ b_related_resources (with_signature (payload (Some f)) sig)
         = Some {[ "execution_condition_fulfillment" := converted ]}
      /\ b_related_resources (local (Some f))
         = Some {[ "execution_condition_fulfillment" := converted ]}
  | TRANSFER_STATE_REJECTED =>
      b_related_resources (payload (Some f))
      = Some {[ "cancellation_condition_fulfillment" := converted ]}
      /\ b_related_resources (with_signature (payload (Some f)) sig)
         = Some {[ "cancellation_condition_fulfillment" := converted ]}
      /\ b_related_resources (local (Some f))
         = Some {[ "cancellation_condition_fulfillment" := converted ]}
  | TRANSFER_STATE_PROPOSED | TRANSFER_STATE_PREPARED =>
      b_related_resources (payload (Some f)) = None
      /\ b_related_resources (with_signature (payload (Some f)) sig) = None
      /\ b_related_resources (local (Some f)) = None
  end
  /\ b_related_resources (payload None) = None
  /\ b_related_resources (with_signature (payload None) sig) = None
  /\ b_related_resources (local None) = None
  /\ fetch_fulfillment E transfer tx w
     = (if isTransferFinalized transfer
        then getFulfillment E (t_id transfer) (in_transaction tx)
        else Return None, w).
Proof.
  intros payload local converted. subst payload local converted.
  unfold build_notification_body, attach_fulfillment, fetch_fulfillment,
    isTransferFinalized, lift_outcome, ret.
  destruct (t_state transfer) eqn:Hstate; simpl; repeat split; try done.
Qed.

End Delivery.

(** Two traces that differ only in how their pieces are bracketed. *)
Ltac same_trace :=
  unfold announcement; simpl;
  repeat (rewrite <- app_assoc; simpl);
  reflexivity.

Section FanOut.

Variable E : Externals.

Lemma append_events_nil (w : World E) : append_events w [] = w.
Proof. destruct w. unfold append_events. simpl. by rewrite app_nil_r. Qed.

Lemma append_events_record (w : World E) (e : Event) (evs : list Event) :
  append_events (record_event w e) evs = append_events w (e :: evs).
Proof.
  unfold append_events, record_event. simpl. by rewrite <- app_assoc.
Qed.

(** The loop of emissions emits, in order, one event per element, until a
    listener throws. *)
Lemma for_each_emit_run (affectedAccounts : list string) (body : Body)
    (w : World E) :
  for_each E affectedAccounts
    (fun account => emit E ("transfer-" ++ account) body) w
  = (emission_outcome E body affectedAccounts,
     append_events w
       (local_events (reached_accounts E body affectedAccounts) body)).
Proof.
  revert w. induction affectedAccounts as [|a rest IH]; intros w; simpl.
  - unfold ret. by rewrite append_events_nil.
  - unfold bind at 1, emit.
    destruct (listeners E ("transfer-" ++ a) body) as [[]|err].
    + rewrite IH. by rewrite append_events_record.
    + reflexivity.
Qed.

(** A generator run to its end is its first slice followed by the rest. *)
Lemma run_gen_start {A : Type} (g : Gen E A) (w : World E) :
  run_gen E g w = settle E (fst (start E g w)) (snd (start E g w)).
Proof.
  revert w. induction g as [a|X m k IH|X m k IH]; intros w; simpl.
  - done.
  - unfold bind. destruct (m w) as [[x|err] w1]; [apply IH|done].
  - done.
Qed.

(** The detached block, step by step: the announcement; if no listener
    threw and the scheduler is enabled, the attempts and the scheduling
    request. *)
Lemma dispatch_run (affectedAccounts : list string) (body : Body)
    (ns : list (option Obj)) (transfer : Transfer)
    (subs : list Subscription) (fulfillment : option Fulfillment)
    (w : World E) :
  dispatch E affectedAccounts body ns transfer subs fulfillment w
  = let w1 := append_events w (announcement E affectedAccounts body) in
    match emission_outcome E body affectedAccounts with
    | Throw err => (Throw err, w1)
    | Return _ =>
        if isEnabled E (scheduler w) then
          match parallel E
                  (immediate_attempts E ns transfer subs fulfillment) w1
          with
          | (Return _, w2) => scheduler_scheduleProcessing E w2
          | (Throw err, w2) => (Throw err, w2)
          end
        else (Return tt, w1)
    end.
Proof.
  unfold dispatch, dispatch_block. simpl.
  unfold bind at 1. unfold bind at 1, log, emit_event.
  unfold bind at 1. rewrite for_each_emit_run, append_events_record.
  fold (announcement E affectedAccounts body).
  destruct (emission_outcome E body affectedAccounts) as [[]|err]; [|done].
  unfold scheduler_isEnabled. simpl.
  destruct (isEnabled E (scheduler w)); simpl; [|done].
  unfold bind at 1.
  destruct (parallel E _ _) as [[l|err] w2]; [|done].
  unfold bind. by destruct (scheduler_scheduleProcessing E w2) as [[[]|err] w3].
Qed.

(** The detached block with its handler: the same, any exception ending
    in the handler's warning. *)
Lemma dispatch_detached_run (affectedAccounts : list string) (body : Body)
    (ns : list (option Obj)) (transfer : Transfer)
    (subs : list Subscription) (fulfillment : option Fulfillment)
    (w : World E) :
  dispatch_detached E affectedAccounts body ns transfer subs fulfillment w
  = let w1 := append_events w (announcement E affectedAccounts body) in
    match emission_outcome E body affectedAccounts with
    | Throw err => (Return tt, record_event w1 (send_failed_warning E err))
    | Return _ =>
        if isEnabled E (scheduler w) then
          match parallel E
                  (immediate_attempts E ns transfer subs fulfillment) w1
          with
          | (Return _, w2) =>
              let w3 :=
                set_scheduler (record_event w2 EvScheduleProcessing)
                  (snd (scheduleProcessing E (scheduler w2))) in
              match fst (scheduleProcessing E (scheduler w2)) with
              | Return _ => (Return tt, w3)
              | Throw err =>
                  (Return tt, record_event w3 (send_failed_warning E err))
              end
          | (Throw err, w2) =>
              (Return tt, record_event w2 (send_failed_warning E err))
          end
        else (Return tt, w1)
    end.
Proof.
  unfold dispatch_detached, co_catch, try_catch.
  rewrite <- run_gen_start.
  fold (dispatch E affectedAccounts body ns transfer subs fulfillment).
  rewrite dispatch_run. simpl.
  destruct (emission_outcome E body affectedAccounts) as [[]|err]; [|done].
  destruct (isEnabled E (scheduler w)); [|done].
  destruct (parallel E _ _) as [[l|err] w2]; [|done].
  unfold scheduler_scheduleProcessing, log, emit_event. simpl.
  by destruct (scheduleProcessing E (scheduler w2)) as [[[]|err] q].
Qed.

Lemma appends_only_parallel {A : Type} (ok : Event -> bool)
    (ms : list (M E A)) :
  Forall (appends_only ok) ms -> appends_only ok (parallel E ms).
Proof.
  induction 1 as [|m ms Hm _ IH]; intros w; simpl.
  - exists []. by rewrite app_nil_r.
  - destruct (Hm w) as (e1 & Ht1 & Hok1).
    destruct (m w) as [[a|err] w1]; simpl in Ht1;
      destruct (IH w1) as (e2 & Ht2 & Hok2);
      [destruct (parallel E ms w1) as [[l|err] w2]|];
      simpl in *; exists (e1 ++ e2)%list;
      by rewrite Ht2, Ht1, app_assoc, forallb_app, Hok1, Hok2.
Qed.

Lemma forallb_emitted (ok : Event -> bool) (evs : list Event) :
  (forall e, ok e = true -> is_emit e = false) ->
  forallb ok evs = true -> emitted evs = [].
Proof.
  intros Hok. induction evs as [|e evs IH]; simpl; [done|].
  intros [He Hevs]%andb_true_iff. apply Hok in He.
  destruct e; simpl in *; try done; by apply IH.
Qed.

Lemma forallb_sent (ok : Event -> bool) (evs : list Event) :
  (forall e, ok e = true -> is_send e = false) ->
  forallb ok evs = true -> sent_payloads evs = [].
Proof.
  intros Hok. induction evs as [|e evs IH]; simpl; [done|].
  intros [He Hevs]%andb_true_iff. apply Hok in He.
  destruct e; simpl in *; try done; by apply IH.
Qed.

Lemma forallb_count (ok p : Event -> bool) (evs : list Event) :
  (forall e, ok e = true -> p e = false) ->
  forallb ok evs = true -> count_events p evs = 0.
Proof.
  intros Hok. induction evs as [|e evs IH]; simpl; [done|].
  intros [He Hevs]%andb_true_iff. apply Hok in He.
  by rewrite count_events_cons, He, IH.
Qed.

Lemma forallb_only_signs (ok : Event -> bool) (evs : list Event) :
  (forall e, is_sign e = true -> ok e = true) ->
  List.filter (fun e => negb (is_sign e)) evs = [] -> forallb ok evs = true.
Proof.
  intros Hok. induction evs as [|e evs IH]; simpl; [done|].
  destruct (is_sign e) eqn:He; simpl; intros Hevs; [|discriminate].
  by rewrite (Hok e He), IH.
Qed.

Lemma forallb_log_lines (ok : Event -> bool) (logs : list Event) :
  (forall level text, ok (EvLog level text) = true) ->
  Forall (fun e => exists t, e = EvLog LDebug t) logs ->
  forallb ok logs = true.
Proof.
  intros Hok. induction 1 as [|e logs [t ->] _ IH]; simpl; [done|].
  by rewrite Hok, IH.
Qed.

Lemma Forall_imap_all {A B : Type} (P : B -> Prop) (f : nat -> A -> B)
    (l : list A) :
  (forall i x, P (f i x)) -> Forall P (imap f l).
Proof.
  revert f. induction l as [|x l IH]; intros f Hf; simpl; [done|].
  constructor; [apply Hf|]. apply IH. intros i y. apply Hf.
Qed.

(** An attempt puts neither a local event, nor a scheduling request, nor
    an insert on the trace. *)
Lemma attempt_appends_only (notification : Obj) (transfer : Transfer)
    (subscription : Subscription) (fulfillment : option Fulfillment) :
  appends_only is_delivery_event
    (processNotificationWithInstances E notification transfer subscription
       fulfillment).
Proof.
  intros w.
  destruct (attempt_events E notification transfer subscription fulfillment w)
    as (signs & tail & text & Htrace & _ & Honly & _ & Htail).
  eexists. split; [exact Htrace|].
  simpl. rewrite forallb_app. simpl.
  rewrite (forallb_only_signs _ signs) by (done || by intros []).
  destruct Htail as [->|(logs & -> & Hlogs)]; [done|].
  rewrite forallb_app, (forallb_log_lines _ logs) by done. done.
Qed.

Lemma immediate_attempts_append_only (ns : list (option Obj))
    (transfer : Transfer) (subs : list Subscription)
    (fulfillment : option Fulfillment) :
  Forall (appends_only is_delivery_event)
    (immediate_attempts E ns transfer subs fulfillment).
Proof.
  apply Forall_imap_all. intros i n. unfold immediate_attempt.
  destruct (subs !! i) as [subscription|].
  - destruct n as [n|]; [apply attempt_appends_only|].
    intros w. eexists [_]. split; [reflexivity|done].
  - intros w. exists []. simpl. by rewrite app_nil_r.
Qed.

(** [findOrCreate] puts nothing but inserts on the trace. *)
Lemma findOrCreate_appends_only (subscriptionID transferID : string)
    (options : Options) :
  appends_only is_insert (findOrCreate E subscriptionID transferID options).
Proof.
  intros w. unfold findOrCreate, bind at 1, getMatchingNotification.
  destruct (find _ (notifications w)) as [r|].
  { exists []. simpl. by rewrite app_nil_r. }
  set (v := js_assign _ _).
  assert (Hinsert : forall (x : Obj) (w0 : World E),
            trace w0 = trace w ->
            exists evs,
              trace (snd (bind E (insertNotification E x options)
                            (fun _ => getNotification E (x !! "id") options)
                            w0))
              = (trace w ++ evs)%list /\ forallb is_insert evs = true).
  { intros x w0 Hw0. unfold bind, insertNotification.
    destruct (existsb _ _); simpl.
    - exists []. by rewrite app_nil_r.
    - exists [EvInsert x]. by rewrite Hw0. }
  unfold bind at 1.
  destruct (js_truthy_prop (v !! "id")); simpl.
  - by apply Hinsert.
  - by apply Hinsert.
Qed.

Lemma find_hit_at_end {A : Type} (p : A -> bool) (l : list A) (x : A) :
  p x = true -> is_Some (find p (l ++ [x])%list).
Proof.
  intros Hx. induction l as [|y l IH]; simpl.
  - rewrite Hx. eauto.
  - destruct (p y); eauto.
Qed.

(** When [findOrCreate] returns, it returns a record. *)
Lemma findOrCreate_returns_record (subscriptionID transferID : string)
    (options : Options) (w : World E) (r : option Obj) :
  fst (findOrCreate E subscriptionID transferID options w) = Return r ->
  is_Some r.
Proof.
  unfold findOrCreate, bind at 1, getMatchingNotification.
  destruct (find _ (notifications w)) as [found|]; simpl.
  { intros [= <-]. eauto. }
  set (v := js_assign _ _).
  assert (Hinsert : forall (x : Obj) (w0 : World E),
            is_Some (x !! "id") ->
            fst (bind E (insertNotification E x options)
                   (fun _ => getNotification E (x !! "id") options) w0)
            = Return r -> is_Some r).
  { intros x w0 [i Hi]. unfold bind, insertNotification, getNotification.
    destruct (existsb _ _); simpl; [done|].
    intros [= <-]. apply find_hit_at_end. rewrite Hi. simpl.
    by apply bool_decide_eq_true_2. }
  unfold bind at 1.
  destruct (js_truthy_prop (v !! "id")) eqn:Htruthy; simpl.
  - apply Hinsert. by destruct (v !! "id").
  - apply Hinsert. rewrite lookup_insert_eq. eauto.
Qed.

Lemma parallel_returns {A : Type} (Q : A -> Prop) (ms : list (M E A))
    (w : World E) (l : list A) :
  Forall (fun m => forall w0 a, fst (m w0) = Return a -> Q a) ms ->
  fst (parallel E ms w) = Return l ->
  length l = length ms /\ Forall Q l.
Proof.
  intros Hms. revert w l.
  induction Hms as [|m ms Hm _ IH]; intros w l; simpl.
  - intros [= <-]. done.
  - specialize (Hm w). destruct (m w) as [[a|err] w1]; simpl in *; [|done].
    specialize (IH w1).
    destruct (parallel E ms w1) as [[l'|err] w2]; simpl in *; [|done].
    intros [= <-]. destruct (IH l' eq_refl) as [Hlen Hall].
    simpl. split; [by rewrite Hlen|]. constructor; eauto.
Qed.

Lemma parallel_all_return {A : Type} (ms : list (M E A)) (w : World E) :
  Forall (fun m => forall w0, exists a, fst (m w0) = Return a) ms ->
  exists l, fst (parallel E ms w) = Return l.
Proof.
  intros Hms. revert w.
  induction Hms as [|m ms Hm _ IH]; intros w; simpl; [by eexists|].
  destruct (Hm w) as [a Ha].
  destruct (m w) as [[a'|err] w1]; simpl in *; [|done].
  destruct (IH w1) as [l Hl].
  destruct (parallel E ms w1) as [[l'|err] w2]; simpl in *; [|done].
  by eexists.
Qed.

Lemma Forall_imap_lookup {A B : Type} (P : B -> Prop) (f : nat -> A -> B)
    (l : list A) :
  (forall i x, l !! i = Some x -> P (f i x)) -> Forall P (imap f l).
Proof.
  revert f. induction l as [|x l IH]; intros f Hf; simpl; [done|].
  constructor; [by apply Hf|]. apply IH. intros i y Hy. by apply Hf.
Qed.

(** An attempt returns whenever the scheduler's retry interface does: a
    failed delivery is not an exception of the attempt. *)
Lemma attempt_returns_when_retry_accepts (notification : Obj)
    (transfer : Transfer) (subscription : Subscription)
    (fulfillment : option Fulfillment) (w : World E) :
  (forall queue n, fst (retryNotification E queue n) = Return tt) ->
  fst (processNotificationWithInstances E notification transfer subscription
         fulfillment w) = Return tt.
Proof.
  intros Haccepts.
  destruct (attempt_run E notification transfer subscription fulfillment w)
    as (w2 & evs & _ & _ & _ & _ & _ & _ & _ & _ & _ & ->).
  destruct (transport_answer E notification transfer subscription
              fulfillment w) as [statusCode body|err]; simpl.
  - destruct (statusCode <? 400)%Z; simpl; [done|apply Haccepts].
  - apply Haccepts.
Qed.

(** What [queueNotifications] does once the fulfillment lookup returned,
    the subscription lookup found a list and every record was found or
    created: it runs the detached block, on the records of the
    subscriptions, one each. *)
Lemma queueNotifications_reaches_dispatch (transfer : Transfer)
    (tx : option nat) (w : World E) (fulfillment : option Fulfillment)
    (subs : list Subscription) (ns : list (option Obj)) :
  let creation :=
    parallel E
      (map (fun subscription =>
              findOrCreate E (s_id subscription) (t_id transfer)
                (in_transaction tx)) subs) in
  fst (fetch_fulfillment E transfer tx w) = Return fulfillment ->
  getAffectedSubscriptions E
    (affected_account_uris E (affected_accounts transfer))
    (in_transaction tx) = Return (Some subs) ->
  fst (creation w) = Return ns ->
  queueNotifications E transfer tx w
  = dispatch_detached E (affected_accounts transfer)
      (attach_fulfillment E transfer fulfillment (generic_body E transfer))
      ns transfer subs fulfillment (snd (creation w))
  /\ (exists inserts,
        trace (snd (creation w)) = (trace w ++ inserts)%list
        /\ forallb is_insert inserts = true)
  /\ length ns = length subs
  /\ Forall is_Some ns.
Proof.
  intros creation Hfetch Hsubs Hcreate.
  assert (Hw : fetch_fulfillment E transfer tx w = (Return fulfillment, w)).
  { unfold fetch_fulfillment, lift_outcome, ret in *.
    destruct (isTransferFinalized transfer); simpl in *; by rewrite Hfetch. }
  split; [|split].
  - unfold queueNotifications, bind at 1. rewrite Hw.
    unfold bind at 1, lift_outcome. rewrite Hsubs.
    unfold bind at 1. fold creation.
    destruct (creation w) as [o w1]. simpl in *. by rewrite Hcreate.
  - destruct (appends_only_parallel is_insert
                (map (fun subscription =>
                        findOrCreate E (s_id subscription) (t_id transfer)
                          (in_transaction tx)) subs)) with (w := w)
      as (inserts & Htrace & Hok); [|by eauto].
    apply Forall_map. apply Forall_forall. intros subscription _.
    apply findOrCreate_appends_only.
  - destruct (parallel_returns is_Some
                (map (fun subscription =>
                        findOrCreate E (s_id subscription) (t_id transfer)
                          (in_transaction tx)) subs) w ns) as [Hlen Hall];
      [|done|].
    + apply Forall_map. apply Forall_forall. intros subscription _ w0 a.
      apply findOrCreate_returns_record.
    + by rewrite Hlen, length_map.
Qed.

(** With every notification defined and a subscription at each index, the
    immediate attempts all return when the retry interface does. *)
Lemma immediate_attempts_return (ns : list (option Obj))
    (transfer : Transfer) (subs : list Subscription)
    (fulfillment : option Fulfillment) (w : World E) :
  (forall queue n, fst (retryNotification E queue n) = Return tt) ->
  length ns = length subs ->
  Forall is_Some ns ->
  exists l,
    fst (parallel E (immediate_attempts E ns transfer subs fulfillment) w)
    = Return l.
Proof.
  intros Haccepts Hlen Hall. apply parallel_all_return.
  apply Forall_imap_lookup. intros i x Hx w0. exists tt.
  unfold immediate_attempt.
  destruct (lookup_lt_is_Some_2 subs i) as [subscription ->].
  { rewrite <- Hlen. by eapply lookup_lt_Some. }
  destruct (proj1 (Forall_lookup _ _) Hall i x Hx) as [n ->].
  by apply attempt_returns_when_retry_accepts.
Qed.

Lemma sent_payloads_log (level : LogLevel) (text : string)
    (evs : list Event) :
  sent_payloads (EvLog level text :: evs) = sent_payloads evs.
Proof. reflexivity. Qed.

Lemma emitted_log (level : LogLevel) (text : string) (evs : list Event) :
  emitted (EvLog level text :: evs) = emitted evs.
Proof. reflexivity. Qed.

Lemma emitted_local_events (affectedAccounts : list string) (body : Body) :
  emitted (local_events affectedAccounts body)
  = map (fun account => ("transfer-" ++ account, body)) affectedAccounts.
Proof.
  induction affectedAccounts as [|a rest IH]; simpl; [done|].
  by rewrite IH.
Qed.

Lemma sent_local_events (affectedAccounts : list string) (body : Body) :
  sent_payloads (local_events affectedAccounts body) = [].
Proof. by induction affectedAccounts. Qed.

Lemma count_local_events (p : Event -> bool) (affectedAccounts : list string)
    (body : Body) :
  (forall name b, p (EvEmit name b) = false) ->
  count_events p (local_events affectedAccounts body) = 0.
Proof.
  intros Hp. induction affectedAccounts as [|a rest IH]; simpl; [done|].
  by rewrite count_events_cons, Hp, IH.
Qed.

(** The detached block as a whole.  It always returns.  Its events are
    the announcement (log line and local events) followed by a rest that
    holds no local event.  When a listener threw, or when the scheduler is
    disabled, nothing is sent and no processing pass is requested; else
    the rest holds one scheduling request when every immediate attempt
    returned, and none otherwise. *)
Lemma dispatch_detached_events (affectedAccounts : list string)
    (body : Body) (ns : list (option Obj)) (transfer : Transfer)
    (subs : list Subscription) (fulfillment : option Fulfillment)
    (w : World E) :
  exists (w' : World E) (rest : list Event),
    dispatch_detached E affectedAccounts body ns transfer subs fulfillment w
    = (Return tt, w')
    /\ trace w'
       = (trace w ++ announcement E affectedAccounts body ++ rest)%list
    /\ emitted rest = []
    /\ match emission_outcome E body affectedAccounts with
       | Throw _ =>
           sent_payloads rest = [] /\ count_events is_schedule rest = 0
       | Return _ =>
           if isEnabled E (scheduler w) then
             count_events is_schedule rest
             = match fst (parallel E
                            (immediate_attempts E ns transfer subs
                               fulfillment)
                            (append_events w
                               (announcement E affectedAccounts body))) with
               | Return _ => 1
               | Throw _ => 0
               end
           else rest = []
       end
    /\ match dispatch E affectedAccounts body ns transfer subs fulfillment w
       with
       | (Return _, w2) => w' = w2
       | (Throw err, w2) => w' = record_event w2 (send_failed_warning E err)
       end.
Proof.
  rewrite dispatch_detached_run, dispatch_run. simpl.
  destruct (emission_outcome E body affectedAccounts) as [[]|err0].
  - destruct (isEnabled E (scheduler w)).
    + set (w1 := append_events w (announcement E affectedAccounts body)).
      destruct (appends_only_parallel is_delivery_event
                  (immediate_attempts E ns transfer subs fulfillment)
                  (immediate_attempts_append_only ns transfer subs fulfillment)
                  w1) as (evs & Htrace & Hok).
      assert (Hemit : emitted evs = [])
        by (apply (forallb_emitted is_delivery_event); [by intros []|done]).
      assert (Hsched : count_events is_schedule evs = 0)
        by (apply (forallb_count is_delivery_event); [by intros []|done]).
      destruct (parallel E _ w1) as [[l|err] w2]; simpl in *.
      * unfold scheduler_scheduleProcessing.
        destruct (scheduleProcessing E (scheduler w2)) as [[[]|err] q]; simpl.
        -- eexists _, (evs ++ [EvScheduleProcessing])%list.
           split; [reflexivity|]. simpl. rewrite Htrace.
           rewrite emitted_app, count_events_app, Hemit, Hsched.
           repeat split; try done. by rewrite <- !app_assoc.
        -- eexists _, (evs ++ [EvScheduleProcessing;
                               send_failed_warning E err])%list.
           split; [reflexivity|]. simpl. rewrite Htrace.
           rewrite emitted_app, count_events_app, Hemit, Hsched.
           repeat split; try done. by rewrite <- !app_assoc.
      * eexists _, (evs ++ [send_failed_warning E err])%list.
        split; [reflexivity|]. simpl. rewrite Htrace.
        rewrite emitted_app, count_events_app, Hemit, Hsched.
        repeat split; try done. by rewrite <- !app_assoc.
    + eexists _, []. split; [reflexivity|]. simpl.
      by rewrite app_nil_r.
  - eexists _, [send_failed_warning E err0]. split; [reflexivity|].
    simpl. repeat split; try done. by rewrite <- app_assoc.
Qed.

Lemma emission_without_throw (body : Body) (affectedAccounts : list string) :
  (forall account, In account affectedAccounts ->
     listeners E ("transfer-" ++ account) body = Return tt) ->
  emission_outcome E body affectedAccounts = Return tt
  /\ reached_accounts E body affectedAccounts = affectedAccounts.
Proof.
  induction affectedAccounts as [|a rest IH]; intros Hall; simpl; [done|].
  rewrite (Hall a) by (by left).
  destruct IH as [-> ->]; [|done]. intros account Hin. apply Hall. by right.
Qed.

Lemma emission_returned (body : Body) (affectedAccounts : list string)
    (u : unit) :
  emission_outcome E body affectedAccounts = Return u ->
  reached_accounts E body affectedAccounts = affectedAccounts.
Proof.
  induction affectedAccounts as [|a rest IH]; simpl; [done|].
  destruct (listeners E ("transfer-" ++ a) body) as [[]|err]; [|done].
  intros Hrest. by rewrite IH.
Qed.

Lemma emission_threw (body : Body) (affectedAccounts : list string)
    (err : string) :
  emission_outcome E body affectedAccounts = Throw err ->
  exists (before later : list string) (account : string),
    affectedAccounts = (before ++ account :: later)%list
    /\ reached_accounts E body affectedAccounts = (before ++ [account])%list
    /\ listeners E ("transfer-" ++ account) body = Throw err.
Proof.
  induction affectedAccounts as [|a rest IH]; simpl; [done|].
  destruct (listeners E ("transfer-" ++ a) body) as [[]|err0] eqn:Ha.
  - intros Hrest. destruct (IH Hrest) as (before & later & account & -> & -> & H).
    by exists (a :: before), later, account.
  - intros [= ->]. by exists [], rest, a.
Qed.

(** The block up to its first yield: the announcement, and nothing more. *)
Lemma dispatch_block_start (affectedAccounts : list string) (body : Body)
    (ns : list (option Obj)) (transfer : Transfer)
    (subs : list Subscription) (fulfillment : option Fulfillment)
    (w : World E) :
  snd (start E (dispatch_block E affectedAccounts body ns transfer subs
                  fulfillment) w)
  = append_events w (announcement E affectedAccounts body).
Proof.
  assert (Hsegment :
    bind E
      (log E LDebug
         ("emitting transfer-{" ++ String.concat "," affectedAccounts
            ++ "}"))
      (fun _ =>
         bind E
           (for_each E affectedAccounts
              (fun account => emit E ("transfer-" ++ account) body))
           (fun _ => scheduler_isEnabled E)) w
    = (match emission_outcome E body affectedAccounts with
       | Return _ => Return (isEnabled E (scheduler w))
       | Throw err => Throw err
       end,
       append_events w (announcement E affectedAccounts body))).
  { unfold bind at 1, log, emit_event.
    unfold bind at 1. rewrite for_each_emit_run, append_events_record.
    fold (announcement E affectedAccounts body).
    by destruct (emission_outcome E body affectedAccounts) as [[]|err]. }
  unfold dispatch_block. simpl. rewrite Hsegment.
  destruct (emission_outcome E body affectedAccounts) as [[]|err]; [|done].
  by destruct (isEnabled E (scheduler w)).
Qed.

(** C5, as the code has it.  Once [queueNotifications] has reached the
    detached block, it returns normally whatever happens there: an
    exception thrown in the block is caught and logged as a warning,
    with the error's stack.  A processing pass is requested from the
    scheduler exactly once when no listener of a local event threw, the
    scheduler is enabled and every immediate attempt returned; it is not
    requested when a listener threw, when the scheduler is disabled or
    when an attempt threw.  A failed delivery does not make an attempt
    throw: when no listener throws, the scheduler is enabled and its retry
    interface accepts, the pass is requested whatever the transport
    answered. *)
Theorem immediate_send_failures_absorbed (transfer : Transfer)
    (tx : option nat) (w : World E) (fulfillment : option Fulfillment)
    (subs : list Subscription) (ns : list (option Obj)) :
  let creation :=
    parallel E
      (map (fun subscription =>
              findOrCreate E (s_id subscription) (t_id transfer)
                (in_transaction tx)) subs) in
  let w1 := snd (creation w) in
  let accounts := affected_accounts transfer in
  let body :=
    attach_fulfillment E transfer fulfillment (generic_body E transfer) in
  let attempts_outcome :=
    fst (parallel E (immediate_attempts E ns transfer subs fulfillment)
           (append_events w1 (announcement E accounts body)))
  in
  fst (fetch_fulfillment E transfer tx w) = Return fulfillment ->
  getAffectedSubscriptions E (affected_account_uris E accounts)
    (in_transaction tx) = Return (Some subs) ->
  fst (creation w) = Return ns ->
  exists w' : World E,
    queueNotifications E transfer tx w = (Return tt, w')
    /\ match dispatch E accounts body ns transfer subs fulfillment w1 with
       | (Return _, w2) => w' = w2
       | (Throw err, w2) =>
           w' = record_event w2
                  (EvLog LWarn
                     ("immediate notification send failed "
                        ++ error_stack E err))
       end
    /\ count_events is_schedule (new_events w w')
       = match emission_outcome E body accounts with
         | Throw _ => 0
         | Return _ =>
             if isEnabled E (scheduler w1) then
               match attempts_outcome with Return _ => 1 | Throw _ => 0 end
             else 0
         end
    /\ ((forall account, In account accounts ->
           listeners E ("transfer-" ++ account) body = Return tt) ->
        (forall queue n, fst (retryNotification E queue n) = Return tt) ->
        isEnabled E (scheduler w1) = true ->
        count_events is_schedule (new_events w w') = 1).
Proof.
  intros creation w1 accounts body attempts_outcome Hfetch Hsubs Hcreate.
  destruct (queueNotifications_reaches_dispatch transfer tx w fulfillment
              subs ns Hfetch Hsubs Hcreate)
    as (Hrun & (inserts & Hinserts & Hok) & Hlen & Hall).
  fold creation in Hrun, Hinserts. fold w1 in Hrun, Hinserts.
  fold body in Hrun. fold accounts in Hrun.
  destruct (dispatch_detached_events accounts body ns transfer subs
              fulfillment w1)
    as (w' & rest & Hdetached & Htrace & _ & Hcount & Hcaught).
  exists w'. rewrite Hrun, Hdetached.
  assert (Hnew : count_events is_schedule (new_events w w')
                 = count_events is_schedule rest).
  { erewrite new_events_app
      by (rewrite Htrace, Hinserts; rewrite <- app_assoc; reflexivity).
    rewrite !count_events_app.
    rewrite (forallb_count is_insert is_schedule inserts)
      by (done || by intros []).
    unfold announcement. rewrite count_events_cons.
    by rewrite count_local_events. }
  assert (Hformula :
    count_events is_schedule rest
    = match emission_outcome E body accounts with
      | Throw _ => 0
      | Return _ =>
          if isEnabled E (scheduler w1) then
            match attempts_outcome with Return _ => 1 | Throw _ => 0 end
          else 0
      end).
  { destruct (emission_outcome E body accounts) as [[]|err].
    - destruct (isEnabled E (scheduler w1)); [done|by rewrite Hcount].
    - by destruct Hcount. }
  split; [done|]. split; [exact Hcaught|]. split.
  - by rewrite Hnew, Hformula.
  - intros Hlisteners Haccepts Henabled. rewrite Hnew, Hformula.
    destruct (emission_without_throw body accounts Hlisteners) as [-> _].
    rewrite Henabled.
    destruct (immediate_attempts_return ns transfer subs fulfillment
                (append_events w1 (announcement E accounts body))
                Haccepts Hlen Hall) as [l Hl].
    subst attempts_outcome. by rewrite Hl.
Qed.

(** C7, as the code has it.  Once [queueNotifications] has reached the
    detached block, the local events are emitted in this order: one
    [transfer-<account>] per entry of the debits, one per entry of the
    credits, then [transfer-*], all carrying the same body; the emission
    stops after the first event whose listener throws.  So when no
    listener throws, the set of emitted names is that of the debit and
    credit accounts plus the wildcard, and an account that appears in
    several entries has its event emitted once per entry; when a listener
    throws, the events after its own are not emitted. *)
Theorem local_events_one_per_entry (transfer : Transfer) (tx : option nat)
    (w : World E) (fulfillment : option Fulfillment)
    (subs : list Subscription) (ns : list (option Obj)) :
  let creation :=
    parallel E
      (map (fun subscription =>
              findOrCreate E (s_id subscription) (t_id transfer)
                (in_transaction tx)) subs) in
  let w' := snd (queueNotifications E transfer tx w) in
  let body :=
    attach_fulfillment E transfer fulfillment (generic_body E transfer) in
  let accounts :=
    (map account (debits transfer ++ credits transfer) ++ ["*"])%list in
  fst (fetch_fulfillment E transfer tx w) = Return fulfillment ->
  getAffectedSubscriptions E
    (affected_account_uris E (affected_accounts transfer))
    (in_transaction tx) = Return (Some subs) ->
  fst (creation w) = Return ns ->
  emitted (new_events w w')
  = map (fun account => ("transfer-" ++ account, body))
        (reached_accounts E body accounts)
  /\ match emission_outcome E body accounts with
     | Return _ =>
         emitted (new_events w w')
         = map (fun account => ("transfer-" ++ account, body)) accounts
         /\ (forall name : string,
               name ∈ map fst (emitted (new_events w w'))
               <-> name = "transfer-*"
                   \/ exists entry : Entry,
                        entry ∈ (debits transfer ++ credits transfer)%list
                        /\ name = "transfer-" ++ account entry)
     | Throw err =>
         exists (before later : list string) (thrower : string),
           accounts = (before ++ thrower :: later)%list
           /\ listeners E ("transfer-" ++ thrower) body = Throw err
           /\ emitted (new_events w w')
              = map (fun account => ("transfer-" ++ account, body))
                    (before ++ [thrower])
     end.
Proof.
  intros creation w' body accounts Hfetch Hsubs Hcreate.
  destruct (queueNotifications_reaches_dispatch transfer tx w fulfillment
              subs ns Hfetch Hsubs Hcreate)
    as (Hrun & (inserts & Hinserts & Hok) & _).
  fold creation in Hrun, Hinserts. fold body in Hrun.
  change (affected_accounts transfer) with accounts in Hrun.
  destruct (dispatch_detached_events accounts body ns transfer subs
              fulfillment (snd (creation w)))
    as (w2 & rest & Hdetached & Htrace & Hrest & _).
  assert (Hemitted :
    emitted (new_events w w')
    = map (fun account => ("transfer-" ++ account, body))
          (reached_accounts E body accounts)).
  { subst w'. rewrite Hrun, Hdetached. simpl.
    erewrite new_events_app
      by (rewrite Htrace, Hinserts; rewrite <- app_assoc; reflexivity).
    rewrite !emitted_app, Hrest, app_nil_r.
    rewrite (forallb_emitted is_insert inserts) by (done || by intros []).
    unfold announcement. simpl. by rewrite emitted_local_events. }
  split; [exact Hemitted|].
  destruct (emission_outcome E body accounts) as [u|err] eqn:Hout.
  - rewrite Hemitted, (emission_returned body accounts u Hout).
    split; [done|].
    intros name. rewrite map_map. simpl.
    rewrite list_elem_of_In, in_map_iff.
    split.
    + intros (a & <- & Ha). apply in_app_or in Ha as [Ha|Ha].
      * right. apply in_map_iff in Ha as (entry & <- & Hentry).
        exists entry. split; [by apply list_elem_of_In|done].
      * left. destruct Ha as [<-|[]]. done.
    + intros [->|(entry & Hentry & ->)].
      * exists "*". split; [done|]. apply in_or_app. right. by left.
      * exists (account entry). split; [done|]. apply in_or_app. left.
        apply in_map. by apply list_elem_of_In.
  - destruct (emission_threw body accounts err Hout)
      as (before & later & thrower & Hsplit & Hreached & Hthrow).
    exists before, later, thrower. rewrite Hemitted, Hreached. done.
Qed.

(** C8, as the code has it.  Once [queueNotifications] has reached the
    detached block, the events of the cycle are: inserts of notification
    records; then the log line and the local events, one after the other
    with nothing in between, up to the first whose listener throws; then a
    rest that holds no local event.  The block emits all of them before
    its first yield: the world in which it is first suspended, or ends
    without having yielded, has the log line and those local events and
    nothing else of the block, so no suspension separates two emissions.
    Nothing is handed to the transport before the rest, so every emission
    precedes every delivery attempt; and when the scheduler is disabled
    nothing is sent and no processing pass is requested, the emissions
    being made all the same. *)
Theorem local_events_precede_delivery (transfer : Transfer)
    (tx : option nat) (w : World E) (fulfillment : option Fulfillment)
    (subs : list Subscription) (ns : list (option Obj)) :
  let creation :=
    parallel E
      (map (fun subscription =>
              findOrCreate E (s_id subscription) (t_id transfer)
                (in_transaction tx)) subs) in
  let w1 := snd (creation w) in
  let w' := snd (queueNotifications E transfer tx w) in
  let accounts := affected_accounts transfer in
  let body :=
    attach_fulfillment E transfer fulfillment (generic_body E transfer) in
  let line :=
    EvLog LDebug
      ("emitting transfer-{" ++ String.concat "," accounts ++ "}") in
  let announced :=
    (line :: local_events (reached_accounts E body accounts) body)%list in
  let first_slice :=
    start E (dispatch_block E accounts body ns transfer subs fulfillment) w1
  in
  fst (fetch_fulfillment E transfer tx w) = Return fulfillment ->
  getAffectedSubscriptions E (affected_account_uris E accounts)
    (in_transaction tx) = Return (Some subs) ->
  fst (creation w) = Return ns ->
  exists inserts rest : list Event,
    new_events w w' = (inserts ++ announced ++ rest)%list
    /\ forallb is_insert inserts = true
    /\ emitted rest = []
    /\ sent_payloads (new_events w w') = sent_payloads rest
    /\ new_events w1 (snd first_slice) = announced
    /\ emitted (new_events w w') = emitted (new_events w1 (snd first_slice))
    /\ (if isEnabled E (scheduler w1) then True
        else sent_payloads rest = []
             /\ count_events is_schedule rest = 0).
Proof.
  intros creation w1 w' accounts body line announced first_slice
    Hfetch Hsubs Hcreate.
  destruct (queueNotifications_reaches_dispatch transfer tx w fulfillment
              subs ns Hfetch Hsubs Hcreate)
    as (Hrun & (inserts & Hinserts & Hok) & _).
  fold creation in Hrun, Hinserts. fold body in Hrun.
  fold accounts in Hrun. fold w1 in Hrun, Hinserts.
  destruct (dispatch_detached_events accounts body ns transfer subs
              fulfillment w1)
    as (w2 & rest & Hdetached & Htrace & Hrest & Hcases & _).
  exists inserts, rest.
  assert (Hann : announcement E accounts body = announced) by done.
  rewrite Hann in Htrace.
  assert (Hnew : new_events w w' = (inserts ++ announced ++ rest)%list).
  { subst w'. rewrite Hrun, Hdetached. simpl.
    apply new_events_app. rewrite Htrace, Hinserts.
    by rewrite <- app_assoc. }
  assert (Hslice : new_events w1 (snd first_slice) = announced).
  { subst first_slice. rewrite dispatch_block_start, Hann.
    by apply new_events_app. }
  assert (Hsent : sent_payloads announced = []).
  { subst announced line. rewrite sent_payloads_log.
    apply sent_local_events. }
  split; [exact Hnew|]. split; [done|]. split; [done|].
  split; [|split; [exact Hslice|split]].
  - rewrite Hnew, !sent_payloads_app, Hsent.
    by rewrite (forallb_sent is_insert inserts) by (done || by intros []).
  - rewrite Hnew, Hslice, !emitted_app, Hrest, app_nil_r.
    by rewrite (forallb_emitted is_insert inserts) by (done || by intros []).
  - destruct (isEnabled E (scheduler w1)); [done|].
    destruct (emission_outcome E body accounts); [by rewrite Hcases|done].
Qed.

(** C9, as the code has it.  When the subscription lookup comes back
    with no result (a falsy value), [queueNotifications] ends there and
    the world is as it was: no record, no local event, no delivery
    attempt, no scheduling request.  It returns normally, unless the
    fulfillment lookup before it threw. *)
Theorem no_result_no_effect (transfer : Transfer) (tx : option nat)
    (w : World E) :
  getAffectedSubscriptions E
    (affected_account_uris E (affected_accounts transfer))
    (in_transaction tx) = Return None ->
  queueNotifications E transfer tx w
  = (match fst (fetch_fulfillment E transfer tx w) with
     | Return _ => Return tt
     | Throw err => Throw err
     end, w).
Proof.
  intros Hsubs. unfold queueNotifications, bind at 1.
  assert (Hw : snd (fetch_fulfillment E transfer tx w) = w).
  { unfold fetch_fulfillment, lift_outcome, ret.
    by destruct (isTransferFinalized transfer). }
  destruct (fetch_fulfillment E transfer tx w) as [[fo|err] w0];
    simpl in *; subst w0; [|done].
  unfold bind, lift_outcome. by rewrite Hsubs.
Qed.

End FanOut.

Lemma delivery_success_cleans_up_witness :
  let E := example_E in
  let w := example_world E [] [example_row] ∅ in
  exists w' : World E,
    processNotificationWithInstances E example_row
      (example_transfer TRANSFER_STATE_EXECUTED) example_subscription None w
    = (Return tt, w')
    /\ notifications w'
       = List.filter (fun row => negb (has_id (example_row !! "id") row))
                     (notifications w)
    /\ (forall options,
          getNotification E (example_row !! "id") options w'
          = (Return None, w'))
    /\ signatureCache w' !! js_str (example_row !! "id") = None
    /\ count_events is_delete (new_events w w') = 1
    /\ count_events is_retry (new_events w w') = 0
    /\ scheduler w' = scheduler w.
Proof.
  apply (delivery_success_cleans_up example_E example_row
           (example_transfer TRANSFER_STATE_EXECUTED) example_subscription
           None (example_world example_E [] [example_row] ∅) 200 "ok").
  - reflexivity.
  - lia.
Defined.

Lemma delivery_failure_keeps_state_witness :
  let E := example_E_500 in
  let w := example_world E [] [example_row] ∅ in
  let t := example_transfer TRANSFER_STATE_EXECUTED in
  exists w' : World E,
    processNotificationWithInstances E example_row t example_subscription
      None w
    = (fst (retryNotification E (scheduler w) example_row), w')
    /\ notifications w' = notifications w
    /\ signatureCache w' !! js_str (example_row !! "id")
       = b_signature (attempt_payload E example_row t example_subscription
                        None w)
    /\ (forall sig,
          signatureCache w !! js_str (example_row !! "id") = Some sig ->
          js_truthy sig = true -> signatureCache w' = signatureCache w)
    /\ count_events is_delete (new_events w w') = 0
    /\ count_events is_retry (new_events w w') = 1
    /\ scheduler w' = snd (retryNotification E (scheduler w) example_row).
Proof.
  apply (delivery_failure_keeps_state example_E_500 example_row
           (example_transfer TRANSFER_STATE_EXECUTED) example_subscription
           None (example_world example_E_500 [] [example_row] ∅)).
  simpl. lia.
Defined.

Lemma signature_reused_across_attempts_witness :
  let E := example_E_500 in
  let w := example_world E [] [example_row] ∅ in
  let t := example_transfer TRANSFER_STATE_PREPARED in
  let t' := example_transfer TRANSFER_STATE_EXECUTED in
  let f' := Some {| condition_fulfillment := "cf:0:" |} in
  let key := js_str (example_row !! "id") in
  let w1 := snd (processNotificationWithInstances E example_row t
                   example_subscription None w) in
  let w3 := snd (processNotificationWithInstances E example_row t'
                   example_subscription f' w1) in
  exists (p1 p2 : Body) (sig : string),
    sent_payloads (new_events w w1) = [p1]
    /\ sent_payloads (new_events w1 w3) = [p2]
    /\ b_signature p1 = Some sig
    /\ b_signature p2 = Some sig
    /\ signatureCache w1 !! key = Some sig
    /\ p2 = with_signature
              (build_notification_body E example_row t' example_subscription
                 f') sig
    /\ count_events is_sign (new_events w1 w3) = 0
    /\ count_events is_sign (new_events w w1)
       + count_events is_sign (new_events w1 w3) <= 1.
Proof.
  apply (signature_reused_across_attempts example_E_500 example_row
           example_row (example_transfer TRANSFER_STATE_PREPARED)
           (example_transfer TRANSFER_STATE_EXECUTED) example_subscription
           example_subscription None
           (Some {| condition_fulfillment := "cf:0:" |})
           (example_world example_E_500 [] [example_row] ∅)).
  - reflexivity.
  - simpl. lia.
  - reflexivity.
  - reflexivity.
Defined.

Lemma immediate_send_failures_absorbed_witness :
  let E := example_E_subscribed in
  let w := example_world E [] [] ∅ in
  exists w' : World E,
    queueNotifications E (example_transfer TRANSFER_STATE_PREPARED) None w
    = (Return tt, w')
    /\ count_events is_schedule (new_events w w') = 1.
Proof.
  intros E w.
  destruct (immediate_send_failures_absorbed example_E_subscribed
              (example_transfer TRANSFER_STATE_PREPARED) None
              (example_world example_E_subscribed [] [] ∅) None
              [example_subscription] [Some example_created_row])
    as (w' & Hrun & _ & _ & Hscheduled).
  - reflexivity.
  - reflexivity.
  - vm_compute. reflexivity.
  - exists w'. split; [exact Hrun|].
    apply Hscheduled;
      [intros account Hin; reflexivity|intros queue n; reflexivity
      |reflexivity].
Defined.

(** Against C5 as stated.  First run: the scheduler is enabled, the
    transport answers 500 and the scheduler's retry interface throws; the
    failure of the immediate attempt is caught and logged, and no
    processing pass is requested.  Second run: the scheduler is disabled;
    the detached block is reached, the local events are emitted, and no
    processing pass is requested. *)
Lemma failed_attempt_skips_scheduling :
  (let E := example_E_retry_fails in
   let w := example_world E [] [] ∅ in
   let run :=
     queueNotifications E (example_transfer TRANSFER_STATE_PREPARED) None w in
   isEnabled E (scheduler w) = true
   /\ fst run = Return tt
   /\ count_events is_send (new_events w (snd run)) = 1
   /\ count_events is_retry (new_events w (snd run)) = 1
   /\ last (trace (snd run))
      = Some (EvLog LWarn
                ("immediate notification send failed "
                   ++ error_stack E "retry queue unavailable"))
   /\ count_events is_schedule (new_events w (snd run)) = 0)
  /\ (let E := example_E_disabled in
      let w := example_world E [] [] ∅ in
      let run :=
        queueNotifications E (example_transfer TRANSFER_STATE_PREPARED) None w
      in
      isEnabled E (scheduler w) = false
      /\ fst run = Return tt
      /\ map fst (emitted (new_events w (snd run)))
         = ["transfer-bob"; "transfer-alice"; "transfer-*"]
      /\ count_events is_schedule (new_events w (snd run)) = 0).
Proof. vm_compute. repeat split; reflexivity. Qed.

Lemma local_events_one_per_entry_witness :
  let E := example_E_listener_throws in
  let w := example_world E [] [] ∅ in
  let t := example_transfer TRANSFER_STATE_PREPARED in
  let w' := snd (queueNotifications E t None w) in
  let body := attach_fulfillment E t None (generic_body E t) in
  let accounts := (map account (debits t ++ credits t) ++ ["*"])%list in
  emitted (new_events w w')
  = map (fun account => ("transfer-" ++ account, body))
        (reached_accounts E body accounts)
  /\ match emission_outcome E body accounts with
     | Return _ =>
         emitted (new_events w w')
         = map (fun account => ("transfer-" ++ account, body)) accounts
         /\ (forall name : string,
               name ∈ map fst (emitted (new_events w w'))
               <-> name = "transfer-*"
                   \/ exists entry : Entry,
                        entry ∈ (debits t ++ credits t)%list
                        /\ name = "transfer-" ++ account entry)
     | Throw err =>
         exists (before later : list string) (thrower : string),
           accounts = (before ++ thrower :: later)%list
           /\ listeners E ("transfer-" ++ thrower) body = Throw err
           /\ emitted (new_events w w')
              = map (fun account => ("transfer-" ++ account, body))
                    (before ++ [thrower])
     end.
Proof.
  apply (local_events_one_per_entry example_E_listener_throws
           (example_transfer TRANSFER_STATE_PREPARED) None
           (example_world example_E_listener_throws [] [] ∅) None
           [example_subscription] [Some example_created_row]).
  - reflexivity.
  - reflexivity.
  - vm_compute. reflexivity.
Defined.

(** Against C7 as stated: an account on both sides of the transfer has
    its event emitted twice. *)
Lemma round_trip_emits_twice :
  let E := example_E_subscribed in
  let w := example_world E [] [] ∅ in
  let w' := snd (queueNotifications E example_round_trip None w) in
  map fst (emitted (new_events w w'))
  = ["transfer-alice"; "transfer-alice"; "transfer-*"]
  /\ ~ NoDup (map fst (emitted (new_events w w'))).
Proof.
  assert (Hnames :
    map fst (emitted
               (new_events (example_world example_E_subscribed [] [] ∅)
                  (snd (queueNotifications example_E_subscribed
                          example_round_trip None
                          (example_world example_E_subscribed [] [] ∅)))))
    = ["transfer-alice"; "transfer-alice"; "transfer-*"])
    by (vm_compute; reflexivity).
  split; [exact Hnames|].
  rewrite Hnames. intros Hnodup.
  apply NoDup_cons_1_1 in Hnodup. apply Hnodup. by left.
Qed.

Lemma local_events_precede_delivery_witness :
  let E := example_E_subscribed in
  let w := example_world E [] [] ∅ in
  let t := example_transfer TRANSFER_STATE_PREPARED in
  let creation :=
    parallel E
      (map (fun subscription =>
              findOrCreate E (s_id subscription) (t_id t)
                (in_transaction None)) [example_subscription]) in
  let w1 := snd (creation w) in
  let w' := snd (queueNotifications E t None w) in
  let accounts := affected_accounts t in
  let body := attach_fulfillment E t None (generic_body E t) in
  let line :=
    EvLog LDebug
      ("emitting transfer-{" ++ String.concat "," accounts ++ "}") in
  let announced :=
    (line :: local_events (reached_accounts E body accounts) body)%list in
  let first_slice :=
    start E
      (dispatch_block E accounts body [Some example_created_row] t
         [example_subscription] None) w1 in
  exists inserts rest : list Event,
    new_events w w' = (inserts ++ announced ++ rest)%list
    /\ forallb is_insert inserts = true
    /\ emitted rest = []
    /\ sent_payloads (new_events w w') = sent_payloads rest
    /\ new_events w1 (snd first_slice) = announced
    /\ emitted (new_events w w') = emitted (new_events w1 (snd first_slice))
    /\ (if isEnabled E (scheduler w1) then True
        else sent_payloads rest = []
             /\ count_events is_schedule rest = 0).
Proof.
  apply (local_events_precede_delivery example_E_subscribed
           (example_transfer TRANSFER_STATE_PREPARED) None
           (example_world example_E_subscribed [] [] ∅) None
           [example_subscription] [Some example_created_row]).
  - reflexivity.
  - reflexivity.
  - vm_compute. reflexivity.
Defined.

(** Against C8 as stated: a listener of [transfer-bob] throws.  The
    events of the accounts after it are never emitted, with the scheduler
    enabled (first run) as with the scheduler disabled (second run). *)
Lemma throwing_listener_stops_emission :
  (let E := example_E_listener_throws in
   let w := example_world E [] [] ∅ in
   let t := example_transfer TRANSFER_STATE_PREPARED in
   let run := queueNotifications E t None w in
   affected_accounts t = ["bob"; "alice"; "*"]
   /\ isEnabled E (scheduler w) = true
   /\ fst run = Return tt
   /\ map fst (emitted (new_events w (snd run))) = ["transfer-bob"]
   /\ sent_payloads (new_events w (snd run)) = [])
  /\ (let E := example_E_disabled_listener_throws in
      let w := example_world E [] [] ∅ in
      let t := example_transfer TRANSFER_STATE_PREPARED in
      let run := queueNotifications E t None w in
      isEnabled E (scheduler w) = false
      /\ fst run = Return tt
      /\ map fst (emitted (new_events w (snd run))) = ["transfer-bob"]).
Proof. vm_compute. repeat split; reflexivity. Qed.

Lemma no_result_no_effect_witness :
  let E := example_E_no_result in
  let w := example_world E [] [example_row] ∅ in
  let t := example_transfer TRANSFER_STATE_PREPARED in
  queueNotifications E t None w
  = (match fst (fetch_fulfillment E t None w) with
     | Return _ => Return tt
     | Throw err => Throw err
     end, w).
Proof.
  apply (no_result_no_effect example_E_no_result
           (example_transfer TRANSFER_STATE_PREPARED) None
           (example_world example_E_no_result [] [example_row] ∅)).
  reflexivity.
Defined.

(** Against C9 as stated: the lookup finds no subscription and comes back
    with an empty list.  No record is created and nothing is sent, but the
    local events are emitted and a processing pass is requested. *)
Lemma empty_list_still_fans_out :
  let E := example_E in
  let w := example_world E [] [] ∅ in
  let t := example_transfer TRANSFER_STATE_PREPARED in
  let run := queueNotifications E t None w in
  getAffectedSubscriptions E
    (affected_account_uris E (affected_accounts t)) (in_transaction None)
  = Return (Some [])
  /\ fst run = Return tt
  /\ notifications (snd run) = []
  /\ sent_payloads (new_events w (snd run)) = []
  /\ map fst (emitted (new_events w (snd run)))
     = ["transfer-bob"; "transfer-alice"; "transfer-*"]
  /\ count_events is_schedule (new_events w (snd run)) = 1.
Proof. vm_compute. repeat split; reflexivity. Qed.

(** * Further properties of the worker *)

Section Creation.

Variable E : Externals.

(** [findOrCreate], case by case: the record found; or, with no record
    for the pair, the insert refused because the id is taken; or the new
    record appended to the table and returned.  An id is drawn from the
    generator only when the caller supplied no truthy one. *)
Lemma findOrCreate_outcome (w : World E) (subscriptionID transferID : string)
    (options : Options) :
  let run := findOrCreate E subscriptionID transferID options w in
  let supplied := default ∅ (defaults options) !! "id" in
  let w0 := if js_truthy_prop supplied then w else tick w in
  let v := new_record E subscriptionID transferID options w in
  match find (matches_pair subscriptionID transferID) (notifications w) with
  | Some r => run = (Return (Some r), w)
  | None =>
      if existsb (has_id (Some (candidate_id E options w))) (notifications w)
      then run = (Throw "notification id already exists", w0)
      else run = (Return (Some v),
                  record_event
                    (set_notifications w0 (notifications w ++ [v])%list)
                    (EvInsert v))
  end.
Proof.
  intros run supplied w0 v.
  destruct (find _ (notifications w)) as [r|] eqn:Hfind.
  { by apply findOrCreate_found. }
  assert (Hinsert : forall (x : Obj) (i : string) (w1 : World E),
            x !! "id" = Some i ->
            notifications w1 = notifications w ->
            bind E (insertNotification E x options)
              (fun _ => getNotification E (x !! "id") options) w1
            = if existsb (has_id (Some i)) (notifications w)
              then (Throw "notification id already exists", w1)
              else (Return (Some x),
                    record_event
                      (set_notifications w1 (notifications w ++ [x])%list)
                      (EvInsert x))).
  { intros x i w1 Hx Hrows.
    unfold bind, insertNotification, getNotification. rewrite Hx, Hrows.
    destruct (existsb (has_id (Some i)) (notifications w)) eqn:Htaken;
      [done|].
    simpl. rewrite find_app_miss by (by apply find_none_of_existsb).
    simpl. by rewrite Hx, bool_decide_eq_true_2. }
  assert (Hrun :
    run = if existsb (has_id (Some (candidate_id E options w)))
               (notifications w)
          then (Throw "notification id already exists", w0)
          else (Return (Some v),
                record_event
                  (set_notifications w0 (notifications w ++ [v])%list)
                  (EvInsert v))).
  { subst run v w0. unfold new_record, candidate_id.
    unfold findOrCreate, bind at 1, getMatchingNotification. rewrite Hfind.
    fold supplied. set (v0 := js_assign _ _).
    assert (Hid : v0 !! "id" = supplied) by apply assigned_id.
    unfold bind at 1. rewrite Hid.
    destruct (js_truthy_prop supplied) eqn:Htruthy.
    - destruct supplied as [i|] eqn:Hsupplied; [|done]. simpl.
      rewrite (insert_id v0 "id" i Hid).
      by rewrite (Hinsert v0 i w Hid eq_refl).
    - unfold uuid4_call, ret. unfold bind at 1. cbv beta iota.
      by rewrite (Hinsert (<["id" := uuid4 E (clock w)]> v0)
                    (uuid4 E (clock w)) (tick w))
        by (done || by rewrite lookup_insert_eq). }
  by destruct (existsb _ _).
Qed.

Lemma find_none_filter_nil {A : Type} (p : A -> bool) (l : list A) :
  find p l = None -> length (List.filter p l) = 0.
Proof.
  induction l as [|x l IH]; simpl; [done|].
  destruct (p x); [done|exact IH].
Qed.

Lemma new_record_fields (w : World E) (subscriptionID transferID : string)
    (options : Options) :
  let v := new_record E subscriptionID transferID options w in
  v !! "id" = Some (candidate_id E options w)
  /\ v !! "subscription_id" = Some subscriptionID
  /\ v !! "transfer_id" = Some transferID
  /\ (forall k, k <> "id" -> k <> "subscription_id" -> k <> "transfer_id" ->
                v !! k = default ∅ (defaults options) !! k).
Proof.
  unfold new_record. repeat split.
  - by rewrite lookup_insert_eq.
  - rewrite lookup_insert_ne by done. apply assigned_subscription.
  - rewrite lookup_insert_ne by done. apply assigned_transfer.
  - intros k H1 H2 H3. rewrite lookup_insert_ne by done.
    unfold js_assign. rewrite lookup_union_r; [done|].
    by rewrite lookup_insert_ne, lookup_singleton_ne.
Qed.

(** X1.  Creation proper.  With no record for the pair and a free id,
    [findOrCreate] appends one record to the table and returns it.  The
    record carries the pair's identifiers even when the caller's defaults
    name others; its id is the caller's [defaults.id] when that is truthy
    and a generated one otherwise (a missing or empty id counts as none);
    every other field is the caller's default.  The generator is called
    only when an id is needed. *)
Theorem findOrCreate_creates_record (w : World E)
    (subscriptionID transferID : string) (options : Options) :
  let supplied := default ∅ (defaults options) !! "id" in
  find (matches_pair subscriptionID transferID) (notifications w) = None ->
  id_free (candidate_id E options w) (notifications w) ->
  exists (n : Obj) (w' : World E),
    findOrCreate E subscriptionID transferID options w = (Return (Some n), w')
    /\ notifications w' = (notifications w ++ [n])%list
    /\ n !! "subscription_id" = Some subscriptionID
    /\ n !! "transfer_id" = Some transferID
    /\ n !! "id"
       = Some (if js_truthy_prop supplied then js_str supplied
               else uuid4 E (clock w))
    /\ (forall k, k <> "id" -> k <> "subscription_id" -> k <> "transfer_id" ->
                  n !! k = default ∅ (defaults options) !! k)
    /\ clock w' = (if js_truthy_prop supplied then clock w else S (clock w)).
Proof.
  intros supplied Hnone Hfree.
  pose proof (findOrCreate_outcome w subscriptionID transferID options)
    as Hrun.
  simpl in Hrun. rewrite Hnone in Hrun.
  unfold id_free in Hfree. rewrite Hfree in Hrun.
  destruct (new_record_fields w subscriptionID transferID options)
    as (Hid & Hs & Ht & Hother).
  eexists _, _. split; [exact Hrun|].
  fold supplied. simpl.
  repeat split; try done.
  by destruct (js_truthy_prop supplied).
Qed.

(** X2.  [findOrCreate] keeps the table free of duplicates: if no pair
    (subscription, transfer) has more than one record before the call,
    none has more than one after it, whatever the call returns or throws. *)
Theorem findOrCreate_keeps_pairs_unique (w : World E)
    (subscriptionID transferID : string) (options : Options) :
  (forall s t, count_pair s t (notifications w) <= 1) ->
  forall s t,
    count_pair s t
      (notifications
         (snd (findOrCreate E subscriptionID transferID options w))) <= 1.
Proof.
  intros Hunique s t.
  pose proof (findOrCreate_outcome w subscriptionID transferID options)
    as Hrun.
  simpl in Hrun.
  destruct (find _ (notifications w)) as [r|] eqn:Hfind.
  { rewrite Hrun. apply Hunique. }
  destruct (existsb _ (notifications w)).
  { rewrite Hrun. simpl.
    destruct (js_truthy_prop _); apply Hunique. }
  rewrite Hrun. simpl. rewrite count_pair_app.
  destruct (new_record_fields w subscriptionID transferID options)
    as (_ & Hs & Ht & _).
  unfold count_pair at 2. simpl.
  destruct (matches_pair s t _) eqn:Hmatch; simpl.
  - unfold matches_pair in Hmatch.
    apply andb_true_iff in Hmatch as [H1 H2].
    apply bool_decide_eq_true_1 in H1, H2.
    rewrite Hs in H1. rewrite Ht in H2.
    injection H1 as <-. injection H2 as <-.
    apply find_none_filter_nil in Hfind.
    unfold count_pair. rewrite Hfind. lia.
  - specialize (Hunique s t). lia.
Qed.

(** The footprint of [findOrCreate]: at most one record appended, one
    insert event for it, and nothing else changed but the clock. *)
Lemma findOrCreate_footprint (w : World E)
    (subscriptionID transferID : string) (options : Options) :
  let w' := snd (findOrCreate E subscriptionID transferID options w) in
  exists added : list Obj,
    notifications w' = (notifications w ++ added)%list
    /\ length added <= 1
    /\ new_events w w' = map EvInsert added
    /\ signatureCache w' = signatureCache w
    /\ scheduler w' = scheduler w.
Proof.
  intros w'.
  pose proof (findOrCreate_outcome w subscriptionID transferID options)
    as Hrun.
  simpl in Hrun. subst w'.
  destruct (find _ (notifications w)) as [r|].
  { rewrite Hrun. exists []. simpl. rewrite app_nil_r.
    repeat split; try done; try lia.
    apply new_events_app. by rewrite app_nil_r. }
  destruct (existsb _ (notifications w)); rewrite Hrun; simpl.
  - exists []. rewrite app_nil_r.
    destruct (js_truthy_prop _); simpl; repeat split; try done; try lia;
      apply new_events_app; by rewrite app_nil_r.
  - eexists [_]. split; [reflexivity|].
    destruct (js_truthy_prop _); simpl; repeat split; try done;
      by apply new_events_app.
Qed.

(** X3.  What [findOrCreate] leaves alone.  It never removes or rewrites
    a stored record: the table after the call is the table before it,
    followed by at most one new record, and the only events of the call
    are the inserts of what it added.  So it hands nothing to the
    transport and emits no local event; and it leaves the signature cache
    and the scheduler as they were. *)
Theorem findOrCreate_only_appends (w : World E)
    (subscriptionID transferID : string) (options : Options) :
  let w' := snd (findOrCreate E subscriptionID transferID options w) in
  exists added : list Obj,
    notifications w' = (notifications w ++ added)%list
    /\ length added <= 1
    /\ new_events w w' = map EvInsert added
    /\ sent_payloads (new_events w w') = []
    /\ emitted (new_events w w') = []
    /\ signatureCache w' = signatureCache w
    /\ scheduler w' = scheduler w.
Proof.
  intros w'.
  destruct (findOrCreate_footprint w subscriptionID transferID options)
    as (added & Hrows & Hlen & Hnew & Hcache & Hsched).
  fold w' in Hrows, Hnew, Hcache, Hsched.
  exists added. rewrite Hnew. repeat split; try done.
  - clear. by induction added.
  - clear. by induction added.
Qed.

End Creation.

Section Redelivery.

Variable E : Externals.

(** X4.  A redelivery whose transfer, subscription or fulfillment lookup
    throws stops there: [processNotification] throws the same error and
    the world is as it was, so nothing was signed or sent, the record is
    still stored and the scheduler's retry interface was not called. *)
Theorem processNotification_lookup_failure (notification : Obj)
    (err : string) (w : World E) :
  redelivery_lookup_fails E notification err ->
  processNotification E notification w = (Throw err, w).
Proof.
  unfold processNotification, bind, lift_outcome.
  intros [Ht|(transfer & Ht & [Hs|(subscription & Hs & Hf)])].
  - by rewrite Ht.
  - by rewrite Ht, Hs.
  - by rewrite Ht, Hs, Hf.
Qed.

(** X5.  An attempt touches its own notification only.  The signature
    cache entries of other notification ids are as before; no record is
    added to the table, and a record with another id is still stored
    afterwards, whatever the transport answered. *)
Theorem attempt_leaves_others_alone (notification : Obj)
    (transfer : Transfer) (subscription : Subscription)
    (fulfillment : option Fulfillment) (w : World E) :
  let w' := snd (processNotificationWithInstances E notification transfer
                   subscription fulfillment w) in
  (forall k, k <> js_str (notification !! "id") ->
             signatureCache w' !! k = signatureCache w !! k)
  /\ (forall row, In row (notifications w') -> In row (notifications w))
  /\ (forall row, In row (notifications w) ->
                  has_id (notification !! "id") row = false ->
                  In row (notifications w')).
Proof.
  intros w'.
  destruct (attempt_run E notification transfer subscription fulfillment w)
    as (w2 & evs & _ & _ & _ & _ & _ & Hother & Hrows & _ & _ & Hrun).
  subst w'. rewrite Hrun. clear Hrun.
  destruct (transport_answer E notification transfer subscription
              fulfillment w) as [statusCode body|err];
    [destruct (statusCode <? 400)%Z|]; simpl; rewrite ?Hrows.
  - repeat split.
    + intros k Hk. rewrite lookup_delete_ne by done. by apply Hother.
    + intros row Hrow. by apply filter_In in Hrow as [Hrow _].
    + intros row Hrow Hid. apply filter_In. by rewrite Hid.
  - repeat split; done.
  - repeat split; done.
Qed.

(** The events of an attempt hold one call to the transport, to the
    subscription's target. *)
Lemma attempt_sent_targets (notification : Obj) (transfer : Transfer)
    (subscription : Subscription) (fulfillment : option Fulfillment)
    (w : World E) :
  exists evs : list Event,
    trace (snd (processNotificationWithInstances E notification transfer
                  subscription fulfillment w))
    = (trace w ++ evs)%list
    /\ sent_targets evs = [s_target subscription].
Proof.
  destruct (attempt_events E notification transfer subscription fulfillment w)
    as (signs & tail & text & Htrace & _ & Honly & _ & Htail).
  eexists. split; [exact Htrace|].
  assert (Hsigns : sent_targets signs = []).
  { clear -Honly. induction signs as [|e signs IH]; simpl; [done|].
    simpl in Honly. destruct e; simpl in *; try done. by apply IH. }
  assert (Htargets : sent_targets tail = []).
  { destruct Htail as [->|(logs & -> & Hlogs)]; [done|].
    unfold sent_targets. rewrite flat_map_app. simpl. rewrite app_nil_r.
    clear -Hlogs. induction Hlogs as [|e logs [t ->] _ IH]; simpl; done. }
  unfold sent_targets in *. simpl. rewrite flat_map_app. simpl.
  by rewrite Hsigns, Htargets.
Qed.

(** X6.  Every attempt calls the transport exactly once, with the
    subscription's target, whatever happens next; it calls the signer at
    most once, emits no local event, inserts no record and requests no
    processing pass. *)
Theorem attempt_sends_exactly_once (notification : Obj)
    (transfer : Transfer) (subscription : Subscription)
    (fulfillment : option Fulfillment) (w : World E) :
  let evs :=
    new_events w
      (snd (processNotificationWithInstances E notification transfer
              subscription fulfillment w)) in
  sent_targets evs = [s_target subscription]
  /\ sent_payloads evs
     = [attempt_payload E notification transfer subscription fulfillment w]
  /\ count_events is_sign evs <= 1
  /\ emitted evs = []
  /\ count_events is_insert evs = 0
  /\ count_events is_schedule evs = 0.
Proof.
  intros evs.
  destruct (attempt_summary E notification transfer subscription fulfillment
              w) as (Hsent & Hsign & _ & Hemit & Hsched & Hins).
  fold evs in Hsent, Hsign, Hemit, Hsched, Hins.
  repeat split; try done.
  destruct (attempt_sent_targets notification transfer subscription
              fulfillment w) as (evs' & Htrace & Htargets).
  subst evs. by rewrite (new_events_app E _ _ _ Htrace).
Qed.

(** X7.  What an attempt signs, by what reading the cache finds.  With
    a truthy entry for the notification id, the attempt does not call the
    signer and sends the body with that entry attached.  With no entry, or
    an empty one, it calls the signer exactly once, on the body it built,
    with the algorithm tag [CC] and the configured key, and sends what the
    signer returned.  The cache being a plain object, an id that names a
    member the object inherits, with no entry of its own, reads as that
    member: the signer is not called and the member is what is attached. *)
Theorem attempt_signs_without_usable_slot (notification : Obj)
    (transfer : Transfer) (subscription : Subscription)
    (fulfillment : option Fulfillment) (w : World E) :
  let key := js_str (notification !! "id") in
  let body :=
    build_notification_body E notification transfer subscription
      fulfillment in
  let evs :=
    new_events w
      (snd (processNotificationWithInstances E notification transfer
              subscription fulfillment w)) in
  let signs_once :=
    List.filter is_sign evs = [EvSign body]
    /\ sent_payloads evs = [sign E body "CC" (privateKey E)] in
  match signatureCache w !! key with
  | Some sig =>
      if js_truthy sig
      then List.filter is_sign evs = []
           /\ sent_payloads evs = [with_signature body sig]
      else signs_once
  | None =>
      if is_object_prototype_member key
      then List.filter is_sign evs = []
           /\ sent_payloads evs = [with_signature_member body key]
      else signs_once
  end.
Proof.
  intros key body evs signs_once.
  set (line := EvLog LDebug
                 ("sending notification to " ++ s_target subscription)).
  destruct (attempt_summary E notification transfer subscription fulfillment
              w) as (Hsent & _).
  fold evs in Hsent.
  assert (Hevents :
    forall (payload : Body) (signs : list Event) (w2 : World E),
      sign_notification E notification body (record_event w line)
      = (Return payload, w2) ->
      trace w2 = (trace w ++ line :: signs)%list ->
      List.filter is_sign signs = signs ->
      List.filter is_sign evs = signs).
  { intros payload signs w2 Hsign Htrace Hsigns. subst evs.
    unfold processNotificationWithInstances, bind at 1, log, emit_event.
    unfold bind at 1. fold line. fold body. rewrite Hsign.
    unfold bind at 1, send_and_decide, try_catch, bind at 1,
      utils_sendNotification.
    simpl.
    destruct (sendNotification E (clock w2) (s_target subscription) payload)
      as [statusCode rbody|err]; simpl;
      [destruct (statusCode <? 400)%Z; simpl|];
      (erewrite new_events_app
         by (simpl; rewrite Htrace; repeat (rewrite <- app_assoc; simpl);
             reflexivity));
      simpl; rewrite List.filter_app, Hsigns; simpl; by rewrite app_nil_r. }
  assert (Hhit : forall payload : Body,
            sign_notification E notification body (record_event w line)
            = (Return payload, record_event w line) ->
            List.filter is_sign evs = []).
  { intros payload Hsign. by apply (Hevents payload [] _ Hsign). }
  assert (Hmiss :
    sign_notification E notification body (record_event w line)
    = sign_and_cache E key body (record_event w line) ->
    List.filter is_sign evs = [EvSign body]).
  { intros Hsign. unfold sign_and_cache in Hsign.
    eapply (Hevents _ [EvSign body] _ Hsign); [|done].
    simpl. by rewrite <- app_assoc. }
  unfold attempt_payload, cache_read in Hsent. fold key body in Hsent.
  subst signs_once.
  unfold sign_notification, cache_read in Hhit, Hmiss.
  simpl in Hhit, Hmiss. fold key in Hhit, Hmiss.
  destruct (signatureCache w !! key) as [sig|].
  - destruct (js_truthy sig); (split; [eauto|exact Hsent]).
  - destruct (is_object_prototype_member key); (split; [eauto|exact Hsent]).
Qed.

End Redelivery.

Section FanOutMore.

Variable E : Externals.

Lemma new_events_same (w : World E) : new_events w w = [].
Proof. unfold new_events. by rewrite drop_all. Qed.

(** The creation phase of the fan-out only appends records; it leaves
    the signature cache and the scheduler as they were. *)
Lemma creation_footprint (transfer : Transfer) (tx : option nat)
    (subs : list Subscription) (w : World E) :
  let w1 :=
    snd (parallel E
           (map (fun subscription =>
                   findOrCreate E (s_id subscription) (t_id transfer)
                     (in_transaction tx)) subs) w) in
  (exists added, notifications w1 = (notifications w ++ added)%list)
  /\ signatureCache w1 = signatureCache w
  /\ scheduler w1 = scheduler w.
Proof.
  revert w. induction subs as [|s subs IH]; intros w; simpl.
  { split; [|done]. exists []. by rewrite app_nil_r. }
  destruct (findOrCreate_footprint E w (s_id s) (t_id transfer)
              (in_transaction tx)) as (a1 & Hrows & _ & _ & Hcache & Hsched).
  destruct (findOrCreate E (s_id s) (t_id transfer) (in_transaction tx) w)
    as [[r|err] w1]; simpl in *;
    destruct (IH w1) as ((a2 & Hrows2) & Hcache2 & Hsched2);
    [destruct (parallel E _ w1) as [[l|err] w2]|]; simpl in *;
    (split; [exists (a1 ++ a2)%list; by rewrite Hrows2, Hrows, app_assoc|]);
    by rewrite Hcache2, Hsched2.
Qed.

Lemma forallb_targets (ok : Event -> bool) (evs : list Event) :
  (forall e, ok e = true -> is_send e = false) ->
  forallb ok evs = true -> sent_targets evs = [].
Proof.
  intros Hok. induction evs as [|e evs IH]; simpl; [done|].
  intros [He Hevs]%andb_true_iff. apply Hok in He.
  destruct e; simpl in *; try done; by apply IH.
Qed.

Lemma sent_targets_app (l l' : list Event) :
  sent_targets (l ++ l')%list = (sent_targets l ++ sent_targets l')%list.
Proof. unfold sent_targets. by rewrite flat_map_app. Qed.

Lemma sent_targets_log (level : LogLevel) (text : string)
    (evs : list Event) :
  sent_targets (EvLog level text :: evs) = sent_targets evs.
Proof. reflexivity. Qed.

Lemma sent_targets_local_events (affectedAccounts : list string)
    (body : Body) :
  sent_targets (local_events affectedAccounts body) = [].
Proof. by induction affectedAccounts. Qed.

(** X8.  A failure before the detached block reaches the caller.  When
    the fulfillment lookup, the subscription lookup or the creation of a
    record throws, [queueNotifications] throws the same error; no local
    event has been emitted, nothing has been handed to the transport and
    no processing pass has been requested. *)
Theorem queueNotifications_propagates_early_failures (transfer : Transfer)
    (tx : option nat) (w : World E) (err : string) :
  let run := queueNotifications E transfer tx w in
  fan_out_fails_early E transfer tx w err ->
  fst run = Throw err
  /\ emitted (new_events w (snd run)) = []
  /\ sent_payloads (new_events w (snd run)) = []
  /\ count_events is_schedule (new_events w (snd run)) = 0.
Proof.
  intros run Hfails. unfold fan_out_fails_early in Hfails.
  assert (Hrun : exists (w' : World E) (inserts : list Event),
            run = (Throw err, w')
            /\ trace w' = (trace w ++ inserts)%list
            /\ forallb is_insert inserts = true).
  { subst run.
    assert (Hw : snd (fetch_fulfillment E transfer tx w) = w).
    { unfold fetch_fulfillment, lift_outcome, ret.
      by destruct (isTransferFinalized transfer). }
    unfold queueNotifications, bind at 1.
    destruct (fetch_fulfillment E transfer tx w) as [o w0]. simpl in *.
    subst w0.
    destruct Hfails as [->|(fo & -> & [Hsubs|(subs & Hsubs & Hcreate)])].
    - exists w, []. by rewrite app_nil_r.
    - unfold bind, lift_outcome. rewrite Hsubs.
      exists w, []. by rewrite app_nil_r.
    - unfold bind at 1, lift_outcome. rewrite Hsubs. unfold bind at 1.
      destruct (appends_only_parallel E is_insert
                  (map (fun subscription =>
                          findOrCreate E (s_id subscription) (t_id transfer)
                            (in_transaction tx)) subs)) with (w := w)
        as (inserts & Htrace & Hok).
      { apply Forall_map. apply Forall_forall. intros subscription _.
        apply findOrCreate_appends_only. }
      destruct (parallel E _ w) as [o w1]. simpl in *. subst o.
      by exists w1, inserts. }
  destruct Hrun as (w' & inserts & -> & Htrace & Hok). simpl.
  rewrite (new_events_app E _ _ _ Htrace).
  rewrite (forallb_emitted is_insert), (forallb_sent is_insert),
    (forallb_count is_insert) by (done || by intros []).
  done.
Qed.

(** X9.  The fan-out reuses the records it finds.  When every matched
    subscription already has a record for the transfer, the creation step
    returns those records, in the order of the subscriptions, and leaves
    the world as it was: a second update of the same transfer inserts
    nothing. *)
Theorem fan_out_reuses_records (transfer : Transfer) (tx : option nat)
    (subs : list Subscription) (w : World E) :
  (forall s, In s subs ->
             exists r, find (matches_pair (s_id s) (t_id transfer))
                            (notifications w) = Some r) ->
  parallel E
    (map (fun subscription =>
            findOrCreate E (s_id subscription) (t_id transfer)
              (in_transaction tx)) subs) w
  = (Return
       (map (fun subscription =>
               find (matches_pair (s_id subscription) (t_id transfer))
                    (notifications w)) subs), w).
Proof.
  induction subs as [|s subs IH]; intros Hall; simpl; [done|].
  destruct (Hall s) as [r Hr]; [by left|].
  rewrite (findOrCreate_found E w _ _ _ r Hr).
  rewrite IH by (intros s' Hs'; apply Hall; by right).
  by rewrite Hr.
Qed.

Lemma announcement_events (affectedAccounts : list string) (body : Body)
    (tail : list Event) :
  sent_payloads (announcement E affectedAccounts body ++ tail)
  = sent_payloads tail
  /\ sent_targets (announcement E affectedAccounts body ++ tail)
     = sent_targets tail
  /\ emitted (announcement E affectedAccounts body ++ tail)
     = (map (fun account => (("transfer-" ++ account)%string, body))
            (reached_accounts E body affectedAccounts) ++ emitted tail)%list
  /\ count_events is_schedule (announcement E affectedAccounts body ++ tail)
     = count_events is_schedule tail.
Proof.
  unfold announcement. rewrite <- !app_comm_cons.
  rewrite sent_payloads_log, sent_targets_log, emitted_log, count_events_cons.
  rewrite !sent_payloads_app, !sent_targets_app, !emitted_app,
    !count_events_app.
  rewrite sent_local_events, sent_targets_local_events, emitted_local_events.
  by rewrite count_local_events.
Qed.

(** X10.  An empty list of subscriptions.  The lookup having come back
    with the empty list, [queueNotifications] returns normally; no record
    is created and nothing is handed to the transport, the signature
    cache is as before, and the local events are emitted all the same, up
    to the first whose listener throws.  A processing pass is requested
    exactly when no listener threw and the scheduler is enabled. *)
Theorem fan_out_without_subscriptions (transfer : Transfer)
    (tx : option nat) (w : World E) (fulfillment : option Fulfillment) :
  let run := queueNotifications E transfer tx w in
  let accounts := affected_accounts transfer in
  let body :=
    attach_fulfillment E transfer fulfillment (generic_body E transfer) in
  fst (fetch_fulfillment E transfer tx w) = Return fulfillment ->
  getAffectedSubscriptions E (affected_account_uris E accounts)
    (in_transaction tx) = Return (Some []) ->
  fst run = Return tt
  /\ notifications (snd run) = notifications w
  /\ signatureCache (snd run) = signatureCache w
  /\ sent_payloads (new_events w (snd run)) = []
  /\ emitted (new_events w (snd run))
     = map (fun account => ("transfer-" ++ account, body))
           (reached_accounts E body accounts)
  /\ count_events is_schedule (new_events w (snd run))
     = match emission_outcome E body accounts with
       | Return _ => if isEnabled E (scheduler w) then 1 else 0
       | Throw _ => 0
       end.
Proof.
  intros run accounts body Hfetch Hsubs.
  destruct (queueNotifications_reaches_dispatch E transfer tx w fulfillment
              [] [] Hfetch Hsubs eq_refl) as (Hrun & _).
  simpl in Hrun. fold body in Hrun. fold accounts in Hrun.
  subst run. rewrite Hrun. clear Hrun.
  rewrite dispatch_detached_run. simpl.
  pose proof (announcement_events accounts body) as Hann.
  destruct (emission_outcome E body accounts) as [[]|err0].
  - destruct (isEnabled E (scheduler w)); simpl.
    + destruct (scheduleProcessing E (scheduler w)) as [[[]|err] q]; simpl.
      * destruct (Hann [EvScheduleProcessing]) as (H1 & _ & H2 & H3).
        rewrite (new_events_app E w _
                   (announcement E accounts body
                      ++ [EvScheduleProcessing])%list)
          by (cbn [trace set_scheduler record_event append_events];
              by rewrite <- app_assoc).
        rewrite H1, H2, H3. simpl. by rewrite app_nil_r.
      * destruct (Hann [EvScheduleProcessing; send_failed_warning E err])
          as (H1 & _ & H2 & H3).
        rewrite (new_events_app E w _
                   (announcement E accounts body
                      ++ [EvScheduleProcessing;
                          send_failed_warning E err])%list)
          by (cbn [trace set_scheduler record_event append_events];
              by rewrite <- !app_assoc).
        rewrite H1, H2, H3. simpl. by rewrite app_nil_r.
    + destruct (Hann []) as (H1 & _ & H2 & H3).
      rewrite app_nil_r in H1, H2, H3.
      rewrite (new_events_app E w _ (announcement E accounts body))
        by reflexivity.
      rewrite H1, H2, H3. simpl. by rewrite app_nil_r.
  - cbn [fst snd].
    destruct (Hann [send_failed_warning E err0]) as (H1 & _ & H2 & H3).
    rewrite (new_events_app E w _
               (announcement E accounts body
                  ++ [send_failed_warning E err0])%list)
      by (cbn [trace record_event append_events]; by rewrite <- app_assoc).
    rewrite H1, H2, H3. simpl. by rewrite app_nil_r.
Qed.

(** Computations run in array order call the transport in that order. *)
Lemma parallel_sent_targets {A : Type} (ms : list (M E A))
    (targets : list string) :
  Forall2 (fun m target =>
             forall w0, exists evs,
               trace (snd (m w0)) = (trace w0 ++ evs)%list
               /\ sent_targets evs = [target]) ms targets ->
  forall w, exists evs,
    trace (snd (parallel E ms w)) = (trace w ++ evs)%list
    /\ sent_targets evs = targets.
Proof.
  induction 1 as [|m target ms targets Hm _ IH]; intros w; simpl.
  { exists []. by rewrite app_nil_r. }
  destruct (Hm w) as (e1 & Ht1 & Hs1).
  destruct (m w) as [[a|err] w1]; simpl in Ht1;
    destruct (IH w1) as (e2 & Ht2 & Hs2);
    [destruct (parallel E ms w1) as [[l|err] w2]|];
    simpl in *; exists (e1 ++ e2)%list;
    by rewrite Ht2, Ht1, app_assoc, sent_targets_app, Hs1, Hs2.
Qed.

Lemma immediate_attempts_targets (ns : list (option Obj))
    (transfer : Transfer) (subs : list Subscription)
    (fulfillment : option Fulfillment) :
  length ns = length subs ->
  Forall is_Some ns ->
  Forall2 (fun m target =>
             forall w0, exists evs,
               trace (snd (m w0)) = (trace w0 ++ evs)%list
               /\ sent_targets evs = [target])
    (immediate_attempts E ns transfer subs fulfillment)
    (s_target <$> subs).
Proof.
  intros Hlen Hall. apply Forall2_same_length_lookup_2.
  { unfold immediate_attempts. by rewrite length_imap, length_fmap. }
  intros i m target Hm Htarget w0.
  unfold immediate_attempts in Hm.
  rewrite list_lookup_imap in Hm. rewrite list_lookup_fmap in Htarget.
  destruct (ns !! i) as [x|] eqn:Hx; [|done].
  destruct (subs !! i) as [subscription|] eqn:Hsub; [|done].
  simpl in *. injection Hm as <-. injection Htarget as <-.
  destruct (proj1 (Forall_lookup _ _) Hall i x Hx) as [n ->].
  unfold immediate_attempt. rewrite Hsub.
  apply attempt_sent_targets.
Qed.

(** X11.  One immediate attempt per matched subscription.  With the
    scheduler enabled and no listener of a local event throwing, a
    dispatch cycle calls the transport once for each subscription the
    lookup returned, in the lookup's order, each time with that
    subscription's target; an attempt that fails or throws does not keep
    the later ones from being made.  When a listener throws, the
    transport is not called at all. *)
Theorem one_attempt_per_subscription (transfer : Transfer)
    (tx : option nat) (w : World E) (fulfillment : option Fulfillment)
    (subs : list Subscription) (ns : list (option Obj)) :
  let creation :=
    parallel E
      (map (fun subscription =>
              findOrCreate E (s_id subscription) (t_id transfer)
                (in_transaction tx)) subs) in
  let w' := snd (queueNotifications E transfer tx w) in
  let accounts := affected_accounts transfer in
  let body :=
    attach_fulfillment E transfer fulfillment (generic_body E transfer) in
  fst (fetch_fulfillment E transfer tx w) = Return fulfillment ->
  getAffectedSubscriptions E (affected_account_uris E accounts)
    (in_transaction tx) = Return (Some subs) ->
  fst (creation w) = Return ns ->
  isEnabled E (scheduler w) = true ->
  sent_targets (new_events w w')
  = match emission_outcome E body accounts with
    | Return _ => map s_target subs
    | Throw _ => []
    end.
Proof.
  intros creation w' accounts body Hfetch Hsubs Hcreate Henabled.
  destruct (queueNotifications_reaches_dispatch E transfer tx w fulfillment
              subs ns Hfetch Hsubs Hcreate)
    as (Hrun & (inserts & Hinserts & Hok) & Hlen & Hall).
  fold creation in Hrun, Hinserts. fold accounts body in Hrun.
  destruct (creation_footprint transfer tx subs w) as (_ & _ & Hsched).
  fold creation in Hsched.
  subst w'. rewrite Hrun. clear Hrun.
  rewrite dispatch_detached_run. cbv zeta. rewrite Hsched, Henabled.
  set (w1 := append_events (snd (creation w)) (announcement E accounts body)).
  assert (Hw1 : trace w1
                = (trace w ++ inserts ++ announcement E accounts body)%list).
  { subst w1. cbn [trace append_events]. by rewrite Hinserts, <- app_assoc. }
  assert (Hprefix : forall evs tail,
            sent_targets tail = [] ->
            sent_targets
              (inserts ++ announcement E accounts body ++ evs ++ tail)%list
            = sent_targets evs).
  { intros evs tail Htail.
    destruct (announcement_events accounts body (evs ++ tail))
      as (_ & Htargets & _).
    rewrite sent_targets_app, Htargets, sent_targets_app, Htail.
    rewrite (forallb_targets is_insert inserts) by (done || by intros []).
    simpl. by rewrite app_nil_r. }
  destruct (emission_outcome E body accounts) as [[]|err0].
  - destruct (parallel_sent_targets
                (immediate_attempts E ns transfer subs fulfillment)
                (s_target <$> subs)
                (immediate_attempts_targets ns transfer subs fulfillment
                   Hlen Hall) w1) as (evs & Htrace & Htargets).
    rewrite Hw1 in Htrace. clear Hw1.
    destruct (parallel E _ w1) as [[l|err] w2]; cbn [fst snd] in Htrace.
    + destruct (scheduleProcessing E (scheduler w2)) as [[[]|err] q];
        cbn [fst snd].
      * rewrite (new_events_app E w _
                   (inserts ++ announcement E accounts body
                      ++ evs ++ [EvScheduleProcessing])%list)
          by (cbn [trace set_scheduler record_event];
              rewrite Htrace; by rewrite <- !app_assoc).
        by rewrite Hprefix.
      * rewrite (new_events_app E w _
                   (inserts ++ announcement E accounts body
                      ++ evs
                      ++ [EvScheduleProcessing;
                          send_failed_warning E err])%list)
          by (cbn [trace set_scheduler record_event];
              rewrite Htrace; by rewrite <- !app_assoc).
        by rewrite Hprefix.
    + rewrite (new_events_app E w _
                 (inserts ++ announcement E accounts body
                    ++ evs ++ [send_failed_warning E err])%list)
        by (cbn [trace record_event snd];
            rewrite Htrace; by rewrite <- !app_assoc).
      by rewrite Hprefix.
  - cbn [fst snd].
    rewrite (new_events_app E w _
               (inserts ++ announcement E accounts body
                  ++ [] ++ [send_failed_warning E err0])%list)
      by (cbn [trace record_event]; rewrite Hw1; by rewrite <- !app_assoc).
    by rewrite Hprefix.
Qed.

(** A record returned by [findOrCreate] is stored, and is the pair's. *)
Lemma findOrCreate_result_stored (w : World E)
    (subscriptionID transferID : string) (options : Options)
    (a : option Obj) (w1 : World E) :
  findOrCreate E subscriptionID transferID options w = (Return a, w1) ->
  exists r, In r (notifications w1)
            /\ matches_pair subscriptionID transferID r = true.
Proof.
  intros Hrun.
  pose proof (findOrCreate_outcome E w subscriptionID transferID options)
    as Hout.
  simpl in Hout.
  destruct (find _ (notifications w)) as [r|] eqn:Hfind.
  { rewrite Hrun in Hout. injection Hout as _ <-.
    exists r. by apply find_some in Hfind. }
  destruct (existsb _ (notifications w)); rewrite Hrun in Hout; [done|].
  injection Hout as _ ->. simpl.
  exists (new_record E subscriptionID transferID options w).
  split; [apply in_or_app; right; by left|].
  destruct (new_record_fields E w subscriptionID transferID options)
    as (_ & Hs & Ht & _).
  unfold matches_pair. by rewrite Hs, Ht, !bool_decide_eq_true_2.
Qed.

(** After a creation step that returned, every subscription has a record
    for the transfer in the table. *)
Lemma creation_records_stored (transfer : Transfer) (tx : option nat)
    (subs : list Subscription) (w : World E) (ns : list (option Obj)) :
  let creation :=
    parallel E
      (map (fun subscription =>
              findOrCreate E (s_id subscription) (t_id transfer)
                (in_transaction tx)) subs) in
  fst (creation w) = Return ns ->
  forall s, In s subs ->
    exists r, In r (notifications (snd (creation w)))
              /\ matches_pair (s_id s) (t_id transfer) r = true.
Proof.
  simpl. revert w ns. induction subs as [|s0 subs IH]; intros w ns; [done|].
  simpl.
  destruct (findOrCreate E (s_id s0) (t_id transfer) (in_transaction tx) w)
    as [[a|err] w1] eqn:Hfirst; [|done].
  pose proof (creation_footprint transfer tx subs w1)
    as ((added & Hrows) & _ & _).
  specialize (IH w1).
  destruct (parallel E _ w1) as [[l|err] w2]; simpl in *; [|done].
  intros _ s [<-|Hs].
  - destruct (findOrCreate_result_stored w _ _ _ a w1 Hfirst)
      as (r & Hr & Hmatch).
    exists r. split; [|done]. rewrite Hrows. apply in_or_app. by left.
  - by apply (IH l).
Qed.

(** X12.  A disabled scheduler.  With the scheduler disabled, a dispatch
    cycle returns normally without handing anything to the transport or
    requesting a processing pass, and leaves the signature cache as it
    was; every subscription the lookup returned has, afterwards, a stored
    record for the transfer, ready for a later delivery. *)
Theorem disabled_worker_keeps_records (transfer : Transfer)
    (tx : option nat) (w : World E) (fulfillment : option Fulfillment)
    (subs : list Subscription) (ns : list (option Obj)) :
  let creation :=
    parallel E
      (map (fun subscription =>
              findOrCreate E (s_id subscription) (t_id transfer)
                (in_transaction tx)) subs) in
  let run := queueNotifications E transfer tx w in
  fst (fetch_fulfillment E transfer tx w) = Return fulfillment ->
  getAffectedSubscriptions E
    (affected_account_uris E (affected_accounts transfer))
    (in_transaction tx) = Return (Some subs) ->
  fst (creation w) = Return ns ->
  isEnabled E (scheduler w) = false ->
  fst run = Return tt
  /\ sent_payloads (new_events w (snd run)) = []
  /\ count_events is_schedule (new_events w (snd run)) = 0
  /\ signatureCache (snd run) = signatureCache w
  /\ (forall s, In s subs ->
        exists r, In r (notifications (snd run))
                  /\ r !! "subscription_id" = Some (s_id s)
                  /\ r !! "transfer_id" = Some (t_id transfer)).
Proof.
  intros creation run Hfetch Hsubs Hcreate Hdisabled.
  destruct (queueNotifications_reaches_dispatch E transfer tx w fulfillment
              subs ns Hfetch Hsubs Hcreate)
    as (Hrun & (inserts & Hinserts & Hok) & _).
  fold creation in Hrun, Hinserts.
  destruct (creation_footprint transfer tx subs w) as (_ & Hcache & Hsched).
  fold creation in Hcache, Hsched.
  pose proof (creation_records_stored transfer tx subs w ns Hcreate)
    as Hstored.
  fold creation in Hstored.
  set (accounts := affected_accounts transfer) in *.
  set (body := attach_fulfillment E transfer fulfillment
                 (generic_body E transfer)) in *.
  assert (Hrecords :
    forall s, In s subs ->
      exists r, In r (notifications (snd (creation w)))
                /\ r !! "subscription_id" = Some (s_id s)
                /\ r !! "transfer_id" = Some (t_id transfer)).
  { intros s Hs. destruct (Hstored s Hs) as (r & Hr & Hmatch).
    exists r. split; [exact Hr|].
    unfold matches_pair in Hmatch.
    apply andb_true_iff in Hmatch as [H1 H2].
    by apply bool_decide_eq_true_1 in H1, H2. }
  assert (Hquiet : forall tail,
            sent_payloads tail = [] ->
            count_events is_schedule tail = 0 ->
            sent_payloads
              (inserts ++ announcement E accounts body ++ tail)%list = []
            /\ count_events is_schedule
                 (inserts ++ announcement E accounts body ++ tail)%list = 0).
  { intros tail H1 H2.
    destruct (announcement_events accounts body tail) as (Hs & _ & _ & Hc).
    rewrite sent_payloads_app, count_events_app, Hs, Hc, H1, H2.
    by rewrite (forallb_sent is_insert inserts),
      (forallb_count is_insert is_schedule inserts)
      by (done || by intros []). }
  subst run. rewrite Hrun. clear Hrun.
  rewrite dispatch_detached_run. cbv zeta. rewrite Hsched, Hdisabled.
  destruct (emission_outcome E body accounts) as [[]|err0]; cbn [fst snd].
  - rewrite (new_events_app E w _
               (inserts ++ announcement E accounts body ++ [])%list)
      by (cbn [trace append_events];
          by rewrite Hinserts, app_nil_r, <- app_assoc).
    destruct (Hquiet []) as [-> ->]; done.
  - rewrite (new_events_app E w _
               (inserts ++ announcement E accounts body
                  ++ [send_failed_warning E err0])%list)
      by (cbn [trace record_event append_events];
          by rewrite Hinserts, <- !app_assoc).
    destruct (Hquiet [send_failed_warning E err0]) as [-> ->]; done.
Qed.

End FanOutMore.

Lemma findOrCreate_creates_record_witness :
  let E := example_E in
  let w := example_world E [] [example_row] ∅ in
  exists (n : Obj) (w' : World E),
    findOrCreate E "sub1" "T1" example_options w = (Return (Some n), w')
    /\ notifications w' = [example_row; n]
    /\ n !! "subscription_id" = Some "sub1"
    /\ n !! "transfer_id" = Some "T1"
    /\ n !! "id" = Some "chosen"
    /\ n !! "retry_count" = Some "3"
    /\ clock w' = clock w.
Proof.
  intros E w.
  destruct (findOrCreate_creates_record example_E
              (example_world example_E [] [example_row] ∅) "sub1" "T1"
              example_options)
    as (n & w' & Hrun & Hrows & Hs & Ht & Hid & Hother & Hclock).
  - vm_compute. reflexivity.
  - vm_compute. reflexivity.
  - exists n, w'. repeat split; try done.
    rewrite (Hother "retry_count") by done. vm_compute. reflexivity.
Defined.

Lemma findOrCreate_keeps_pairs_unique_witness :
  count_pair "sub1" "T1"
    (notifications
       (snd (findOrCreate example_E "sub1" "T1" (in_transaction None)
               (example_world example_E [] [example_row] ∅)))) <= 1.
Proof.
  apply (findOrCreate_keeps_pairs_unique example_E
           (example_world example_E [] [example_row] ∅) "sub1" "T1"
           (in_transaction None)).
  intros s t. unfold count_pair. simpl.
  destruct (matches_pair s t example_row); simpl; lia.
Defined.

Lemma processNotification_lookup_failure_witness :
  let w := example_world example_E_500 [] [example_row] ∅ in
  processNotification example_E_500 example_row w
  = (Throw "transfer not found", w).
Proof.
  apply (processNotification_lookup_failure example_E_500 example_row
           "transfer not found"
           (example_world example_E_500 [] [example_row] ∅)).
  left. reflexivity.
Defined.

Lemma attempt_signs_without_usable_slot_witness :
  let E := example_E_500 in
  let n : Obj := <["id" := "constructor"]> example_row in
  let t := example_transfer TRANSFER_STATE_PREPARED in
  let w := example_world E [] [n] ∅ in
  let body := build_notification_body E n t example_subscription None in
  let evs :=
    new_events w
      (snd (processNotificationWithInstances E n t example_subscription
              None w)) in
  signatureCache w !! "constructor" = None
  /\ List.filter is_sign evs = []
  /\ sent_payloads evs = [with_signature_member body "constructor"].
Proof.
  intros E n t w body evs. split; [reflexivity|].
  exact (attempt_signs_without_usable_slot example_E_500
           (<["id" := "constructor"]> example_row)
           (example_transfer TRANSFER_STATE_PREPARED) example_subscription
           None
           (example_world example_E_500 []
              [<["id" := "constructor"]> example_row] ∅)).
Defined.

Lemma queueNotifications_propagates_early_failures_witness :
  let E := example_E_subscribed in
  let w := example_world E [] [example_clash_row] ∅ in
  let run :=
    queueNotifications E (example_transfer TRANSFER_STATE_PREPARED) None w in
  fst run = Throw "notification id already exists"
  /\ emitted (new_events w (snd run)) = []
  /\ sent_payloads (new_events w (snd run)) = []
  /\ count_events is_schedule (new_events w (snd run)) = 0.
Proof.
  apply (queueNotifications_propagates_early_failures example_E_subscribed
           (example_transfer TRANSFER_STATE_PREPARED) None
           (example_world example_E_subscribed [] [example_clash_row] ∅)
           "notification id already exists").
  right. exists None. split; [reflexivity|].
  right. exists [example_subscription]. split; [reflexivity|].
  vm_compute. reflexivity.
Defined.

Lemma fan_out_reuses_records_witness :
  let E := example_E_subscribed in
  let w := example_world E [] [example_row] ∅ in
  parallel E
    (map (fun subscription =>
            findOrCreate E (s_id subscription) "T1" (in_transaction None))
         [example_subscription]) w
  = (Return [Some example_row], w).
Proof.
  apply (fan_out_reuses_records example_E_subscribed
           (example_transfer TRANSFER_STATE_PREPARED) None
           [example_subscription]
           (example_world example_E_subscribed [] [example_row] ∅)).
  intros s [<-|[]]. exists example_row. vm_compute. reflexivity.
Defined.

Lemma fan_out_without_subscriptions_witness :
  let E := example_E in
  let w := example_world E [] [example_row] ∅ in
  let t := example_transfer TRANSFER_STATE_PREPARED in
  let run := queueNotifications E t None w in
  let body := attach_fulfillment E t None (generic_body E t) in
  fst run = Return tt
  /\ notifications (snd run) = notifications w
  /\ signatureCache (snd run) = signatureCache w
  /\ sent_payloads (new_events w (snd run)) = []
  /\ emitted (new_events w (snd run))
     = map (fun account => ("transfer-" ++ account, body))
           (affected_accounts t)
  /\ count_events is_schedule (new_events w (snd run))
     = (if isEnabled E (scheduler w) then 1 else 0).
Proof.
  apply (fan_out_without_subscriptions example_E
           (example_transfer TRANSFER_STATE_PREPARED) None
           (example_world example_E [] [example_row] ∅) None).
  - reflexivity.
  - reflexivity.
Defined.

Lemma one_attempt_per_subscription_witness :
  let E := example_E_subscribed in
  let w := example_world E [] [] ∅ in
  let t := example_transfer TRANSFER_STATE_PREPARED in
  sent_targets (new_events w (snd (queueNotifications E t None w)))
  = map s_target [example_subscription].
Proof.
  apply (one_attempt_per_subscription example_E_subscribed
           (example_transfer TRANSFER_STATE_PREPARED) None
           (example_world example_E_subscribed [] [] ∅) None
           [example_subscription] [Some example_created_row]).
  - reflexivity.
  - reflexivity.
  - vm_compute. reflexivity.
  - reflexivity.
Defined.

Lemma disabled_worker_keeps_records_witness :
  let E := example_E_disabled in
  let w := example_world E [] [] ∅ in
  let t := example_transfer TRANSFER_STATE_PREPARED in
  let run := queueNotifications E t None w in
  fst run = Return tt
  /\ sent_payloads (new_events w (snd run)) = []
  /\ count_events is_schedule (new_events w (snd run)) = 0
  /\ signatureCache (snd run) = signatureCache w
  /\ (forall s, In s [example_subscription] ->
        exists r, In r (notifications (snd run))
                  /\ r !! "subscription_id" = Some (s_id s)
                  /\ r !! "transfer_id" = Some (t_id t)).
Proof.
  apply (disabled_worker_keeps_records example_E_disabled
           (example_transfer TRANSFER_STATE_PREPARED) None
           (example_world example_E_disabled [] [] ∅) None
           [example_subscription] [Some example_created_row]).
  - reflexivity.
  - reflexivity.
  - vm_compute. reflexivity.
  - reflexivity.
Defined.
